(** * A shallow embedding of the NextJS audio player

    The player component (AudioPlayer), its progress reconciliation and
    the auth context are React code: handlers that read the values of the
    current render, call state setters, mutate two refs and talk to the
    browser (media element, timers, object URLs, fetch, localStorage).

    The embedding keeps that shape.  A component instance is a record
    holding the [useState] values, the [useRef] cells and the browser
    resources the component owns; every handler is a state transformer
    over that record, written in a small state-and-exception monad so that
    [try]/[catch]/[finally] read as in the source.  What the outside world
    decides (whether a fetch resolves, which status it carries, whether
    the media element accepts [play()]) is an explicit argument of the
    handler.  Calls to the logging helpers are observers only and are left
    out of the handlers; the session logger, the login form, the chapter
    list and the demo page's log are embedded on their own, each in its
    module.

    JavaScript numbers that hold times and percentages are modelled as
    rationals ([Q]); [NaN], the result of [parseFloat] on a non-number, is
    the [None] of [option Q]. *)

From Stdlib Require Import QArith Qminmax Qround Qabs ZArith Bool Ascii String List Lia Lqa.
From stdpp Require Import gmap strings pretty.
Import ListNotations.

Local Open Scope string_scope.

(** ** JavaScript values and numbers *)

(** The scalars a JSON progress record carries in its fields (the
    specification types them as numbers and booleans; string-valued
    fields are outside the record type). *)
Inductive JsVal : Type :=
| JUndefined
| JNull
| JBool (b : bool)
| JNum (q : Q).

(** [parseFloat(v)]: a number is returned as it is, every other scalar of
    [JsVal] stringifies to text that does not start a number: [NaN]. *)
Definition parseFloat (v : JsVal) : option Q :=
  match v with JNum q => Some q | _ => None end.

Definition Qlt_bool (x y : Q) : bool := negb (Qle_bool y x).

(** [a < b] on numbers that may be [NaN]: false when either side is
    [NaN]. *)
Definition num_lt (a b : option Q) : bool :=
  match a, b with Some x, Some y => Qlt_bool x y | _, _ => false end.

(** [n || 0] on a number: [0] and [NaN] are falsy. *)
Definition num_or_zero (n : option Q) : Q :=
  match n with
  | Some q => if Qeq_bool q 0 then 0%Q else q
  | None => 0%Q
  end.

(** [v === 1 || v === true] *)
Definition strict_eq_one_or_true (v : JsVal) : bool :=
  match v with
  | JNum q => Qeq_bool q 1
  | JBool b => b
  | _ => false
  end.

(** Truthiness of an optional string (a token, a URL): [undefined], [null]
    and the empty string are falsy. *)
Definition truthy_string (s : string) : bool :=
  match s with EmptyString => false | _ => true end.

Definition truthy_opt_string (o : option string) : bool :=
  match o with Some s => truthy_string s | None => false end.

(** Truthiness of a position held in state ([null] or a number). *)
Definition truthy_opt_num (o : option Q) : bool :=
  match o with Some q => negb (Qeq_bool q 0) | None => false end.

Record JsError : Type := { err_name : string; err_message : string }.

Definition mkError (msg : string) : JsError :=
  {| err_name := "Error"; err_message := msg |}.

(** ** State and exceptions *)

Inductive Completion (A : Type) : Type :=
| Normal (a : A)
| Throw (e : JsError).
Arguments Normal {A} a.
Arguments Throw {A} e.

Definition M (S A : Type) : Type := S -> Completion A * S.

Definition ret {S A} (a : A) : M S A := fun s => (Normal a, s).

Definition bind {S A B} (m : M S A) (k : A -> M S B) : M S B :=
  fun s =>
    match m s with
    | (Normal a, s') => k a s'
    | (Throw e, s') => (Throw e, s')
    end.

Definition throw {S A} (e : JsError) : M S A := fun s => (Throw e, s).

Definition get {S} : M S S := fun s => (Normal s, s).

Definition modify {S} (f : S -> S) : M S unit := fun s => (Normal tt, f s).

(** [try { body } catch (e) { handler e }] *)
Definition try_catch {S A} (body : M S A) (handler : JsError -> M S A) : M S A :=
  fun s =>
    match body s with
    | (Normal a, s') => (Normal a, s')
    | (Throw e, s') => handler e s'
    end.

(** [try { body } finally { fin }]: [fin] runs on both exits and the
    completion of [body] is kept. *)
Definition try_finally {S A} (body : M S A) (fin : M S unit) : M S A :=
  fun s =>
    match body s with
    | (c, s') =>
        match fin s' with
        | (Normal _, s'') => (c, s'')
        | (Throw e, s'') => (Throw e, s'')
        end
    end.

(** A call whose promise the caller drops: the effects happen, the
    completion is not observed. *)
Definition fire_and_forget {S A} (m : M S A) : M S unit :=
  fun s => (Normal tt, snd (m s)).

Definition exec {S A} (m : M S A) (s : S) : S := snd (m s).
Definition completion {S A} (m : M S A) (s : S) : Completion A := fst (m s).

Declare Scope js_scope.
Delimit Scope js_scope with js.
Notation "x <- m ;; k" := (bind m (fun x => k))
  (at level 100, m at next level, right associativity) : js_scope.
Notation "m ;;; k" := (bind m (fun _ => k))
  (at level 100, right associativity) : js_scope.

(** ** The network *)

(** A response: its HTTP status and what reading its body gives
    ([json()], [text()] or [blob()], which may reject). *)
Record Response (B : Type) : Type :=
  { status : Z; body : Completion B }.
Arguments status {B} r.
Arguments body {B} r.

(** [response.ok]: the status is in the range 200-299. *)
Definition ok {B} (r : Response B) : bool :=
  ((200 <=? status r) && (status r <=? 299))%Z.

(** What a [fetch] call settles to: the promise rejects (network failure)
    or resolves with a response. *)
Inductive FetchOutcome (B : Type) : Type :=
| NetworkError (e : JsError)
| Responded (r : Response B).
Arguments NetworkError {B} e.
Arguments Responded {B} r.

Definition failed {B} (o : FetchOutcome B) : bool :=
  match o with
  | NetworkError _ => true
  | Responded r => negb (ok r)
  end.

Record Request : Type :=
  { req_method : string;
    req_url : string;
    req_bearer : option string;
    req_body : option (Z * string * Q) }.

(** ** The player component (AudioPlayer) *)

Module AudioPlayer.

Local Open Scope js_scope.

(** The caller's [onProgressUpdate] function: it returns or it raises. *)
Record Callback : Type := { cb_raises : option JsError }.

Record Props : Type :=
  { apiBaseUrl : string;
    authToken : option string;
    onProgressUpdate : option Callback;
    autoPlay : bool }.

(** The [useState] cells.  [resumePosition] is [null] until a progress
    record sets it to a number. *)
Record State : Type :=
  { isPlaying : bool;
    isLoading : bool;
    duration : Q;
    currentTime : Q;
    playbackRate : Q;
    error : option string;
    resumeAvailable : bool;
    resumePosition : option Q;
    showStartOver : bool;
    completionPercentage : Q }.

Definition initialState : State :=
  {| isPlaying := false; isLoading := false; duration := 0; currentTime := 0;
     playbackRate := 1; error := None; resumeAvailable := false;
     resumePosition := None; showStartOver := false;
     completionPercentage := 0 |}.

(** What the media element's [src] holds: a plain URL or an object URL
    made by [URL.createObjectURL], named by its handle. *)
Inductive MediaSrc : Type :=
| SrcUrl (u : string)
| SrcObjectUrl (h : positive).

(** The function [handleResume] stores in [onloadedmetadata]; it closes
    over the [resumePosition] of the render that ran [handleResume]. *)
Inductive Listener : Type :=
| ResumeOnMetadata (captured_resumePosition : option Q).

(** The [<audio>] element, as far as the component reads and writes it.
    [media_currentTime] is what the element's [currentTime] reads: the
    position the last seek moved to.  [media_duration] is 0 until the
    element has metadata.  How the position advances during playback is
    not part of the component and is not modelled. *)
Record Audio : Type :=
  { src : option MediaSrc;
    media_currentTime : Q;
    media_duration : Q;
    paused : bool;
    onloadedmetadata : option Listener }.

Definition freshAudio : Audio :=
  {| src := None; media_currentTime := 0; media_duration := 0;
     paused := true; onloadedmetadata := None |}.

(** What the component does to the element and what the element signals,
    in the order it happens. *)
Inductive MediaEvent : Type :=
| AssignSrc (s : MediaSrc)
| AssignCurrentTime (t : Q)
| AssignOnLoadedMetadata
| CallPlay
| CallPause
| MetadataLoaded.

(** Browser resources and the effects an observer can see. *)
Record Browser : Type :=
  { intervals : gmap positive Z;      (* live interval timers: id, period in ms *)
    nextInterval : positive;
    objectUrls : gset positive;       (* created and not revoked *)
    nextObjectUrl : positive;
    revokeCalls : list positive;      (* [URL.revokeObjectURL] calls *)
    requests : list Request;          (* [fetch] calls *)
    progressCallbacks : list (Q * string * Q);
    downloads : list MediaSrc;        (* download links clicked *)
    mediaLog : list MediaEvent }.

Definition freshBrowser : Browser :=
  {| intervals := ∅; nextInterval := 1%positive; objectUrls := ∅;
     nextObjectUrl := 1%positive; revokeCalls := []; requests := [];
     progressCallbacks := []; downloads := []; mediaLog := [] |}.

(** One mounted instance: props, state, the two refs and the browser. *)
Record Player : Type :=
  { props : Props;
    st : State;
    audioRef : option Audio;
    progressIntervalRef : option positive;
    browser : Browser }.

(** The instance after the first render in browser [b]: the ref is
    attached to the element, no effect has run yet. *)
Definition mountOn (p : Props) (b : Browser) : Player :=
  {| props := p; st := initialState; audioRef := Some freshAudio;
     progressIntervalRef := None; browser := b |}.

Definition mounted (p : Props) : Player := mountOn p freshBrowser.

(** *** Field updates *)

Definition with_st (f : State -> State) (c : Player) : Player :=
  {| props := props c; st := f (st c); audioRef := audioRef c;
     progressIntervalRef := progressIntervalRef c; browser := browser c |}.

Definition with_audioRef (f : option Audio -> option Audio) (c : Player) : Player :=
  {| props := props c; st := st c; audioRef := f (audioRef c);
     progressIntervalRef := progressIntervalRef c; browser := browser c |}.

Definition with_progressIntervalRef (r : option positive) (c : Player) : Player :=
  {| props := props c; st := st c; audioRef := audioRef c;
     progressIntervalRef := r; browser := browser c |}.

Definition with_browser (f : Browser -> Browser) (c : Player) : Player :=
  {| props := props c; st := st c; audioRef := audioRef c;
     progressIntervalRef := progressIntervalRef c; browser := f (browser c) |}.

Definition put_isPlaying (b : bool) (s : State) : State :=
  {| isPlaying := b; isLoading := isLoading s; duration := duration s;
     currentTime := currentTime s; playbackRate := playbackRate s;
     error := error s; resumeAvailable := resumeAvailable s;
     resumePosition := resumePosition s; showStartOver := showStartOver s;
     completionPercentage := completionPercentage s |}.

Definition put_isLoading (b : bool) (s : State) : State :=
  {| isPlaying := isPlaying s; isLoading := b; duration := duration s;
     currentTime := currentTime s; playbackRate := playbackRate s;
     error := error s; resumeAvailable := resumeAvailable s;
     resumePosition := resumePosition s; showStartOver := showStartOver s;
     completionPercentage := completionPercentage s |}.

Definition put_duration (d : Q) (s : State) : State :=
  {| isPlaying := isPlaying s; isLoading := isLoading s; duration := d;
     currentTime := currentTime s; playbackRate := playbackRate s;
     error := error s; resumeAvailable := resumeAvailable s;
     resumePosition := resumePosition s; showStartOver := showStartOver s;
     completionPercentage := completionPercentage s |}.

Definition put_currentTime (t : Q) (s : State) : State :=
  {| isPlaying := isPlaying s; isLoading := isLoading s; duration := duration s;
     currentTime := t; playbackRate := playbackRate s;
     error := error s; resumeAvailable := resumeAvailable s;
     resumePosition := resumePosition s; showStartOver := showStartOver s;
     completionPercentage := completionPercentage s |}.

Definition put_error (e : option string) (s : State) : State :=
  {| isPlaying := isPlaying s; isLoading := isLoading s; duration := duration s;
     currentTime := currentTime s; playbackRate := playbackRate s;
     error := e; resumeAvailable := resumeAvailable s;
     resumePosition := resumePosition s; showStartOver := showStartOver s;
     completionPercentage := completionPercentage s |}.

Definition put_resumeAvailable (b : bool) (s : State) : State :=
  {| isPlaying := isPlaying s; isLoading := isLoading s; duration := duration s;
     currentTime := currentTime s; playbackRate := playbackRate s;
     error := error s; resumeAvailable := b;
     resumePosition := resumePosition s; showStartOver := showStartOver s;
     completionPercentage := completionPercentage s |}.

Definition put_resumePosition (p : option Q) (s : State) : State :=
  {| isPlaying := isPlaying s; isLoading := isLoading s; duration := duration s;
     currentTime := currentTime s; playbackRate := playbackRate s;
     error := error s; resumeAvailable := resumeAvailable s;
     resumePosition := p; showStartOver := showStartOver s;
     completionPercentage := completionPercentage s |}.

Definition put_showStartOver (b : bool) (s : State) : State :=
  {| isPlaying := isPlaying s; isLoading := isLoading s; duration := duration s;
     currentTime := currentTime s; playbackRate := playbackRate s;
     error := error s; resumeAvailable := resumeAvailable s;
     resumePosition := resumePosition s; showStartOver := b;
     completionPercentage := completionPercentage s |}.

Definition put_completionPercentage (p : Q) (s : State) : State :=
  {| isPlaying := isPlaying s; isLoading := isLoading s; duration := duration s;
     currentTime := currentTime s; playbackRate := playbackRate s;
     error := error s; resumeAvailable := resumeAvailable s;
     resumePosition := resumePosition s; showStartOver := showStartOver s;
     completionPercentage := p |}.

Definition put_src (v : MediaSrc) (a : Audio) : Audio :=
  {| src := Some v; media_currentTime := media_currentTime a;
     media_duration := media_duration a; paused := paused a;
     onloadedmetadata := onloadedmetadata a |}.

Definition put_media_currentTime (t : Q) (a : Audio) : Audio :=
  {| src := src a; media_currentTime := t;
     media_duration := media_duration a; paused := paused a;
     onloadedmetadata := onloadedmetadata a |}.

Definition put_media_duration (d : Q) (a : Audio) : Audio :=
  {| src := src a; media_currentTime := media_currentTime a;
     media_duration := d; paused := paused a;
     onloadedmetadata := onloadedmetadata a |}.

Definition put_paused (b : bool) (a : Audio) : Audio :=
  {| src := src a; media_currentTime := media_currentTime a;
     media_duration := media_duration a; paused := b;
     onloadedmetadata := onloadedmetadata a |}.

Definition put_onloadedmetadata (l : Listener) (a : Audio) : Audio :=
  {| src := src a; media_currentTime := media_currentTime a;
     media_duration := media_duration a; paused := paused a;
     onloadedmetadata := Some l |}.

Definition put_intervals (t : gmap positive Z) (n : positive) (b : Browser) : Browser :=
  {| intervals := t; nextInterval := n; objectUrls := objectUrls b;
     nextObjectUrl := nextObjectUrl b; revokeCalls := revokeCalls b;
     requests := requests b; progressCallbacks := progressCallbacks b;
     downloads := downloads b; mediaLog := mediaLog b |}.

Definition put_objectUrls (u : gset positive) (n : positive) (r : list positive)
    (b : Browser) : Browser :=
  {| intervals := intervals b; nextInterval := nextInterval b; objectUrls := u;
     nextObjectUrl := n; revokeCalls := r;
     requests := requests b; progressCallbacks := progressCallbacks b;
     downloads := downloads b; mediaLog := mediaLog b |}.

Definition put_requests (r : list Request) (b : Browser) : Browser :=
  {| intervals := intervals b; nextInterval := nextInterval b;
     objectUrls := objectUrls b; nextObjectUrl := nextObjectUrl b;
     revokeCalls := revokeCalls b; requests := r;
     progressCallbacks := progressCallbacks b;
     downloads := downloads b; mediaLog := mediaLog b |}.

Definition put_progressCallbacks (l : list (Q * string * Q)) (b : Browser) : Browser :=
  {| intervals := intervals b; nextInterval := nextInterval b;
     objectUrls := objectUrls b; nextObjectUrl := nextObjectUrl b;
     revokeCalls := revokeCalls b; requests := requests b;
     progressCallbacks := l;
     downloads := downloads b; mediaLog := mediaLog b |}.

Definition put_downloads (l : list MediaSrc) (b : Browser) : Browser :=
  {| intervals := intervals b; nextInterval := nextInterval b;
     objectUrls := objectUrls b; nextObjectUrl := nextObjectUrl b;
     revokeCalls := revokeCalls b; requests := requests b;
     progressCallbacks := progressCallbacks b;
     downloads := l; mediaLog := mediaLog b |}.

Definition put_mediaLog (l : list MediaEvent) (b : Browser) : Browser :=
  {| intervals := intervals b; nextInterval := nextInterval b;
     objectUrls := objectUrls b; nextObjectUrl := nextObjectUrl b;
     revokeCalls := revokeCalls b; requests := requests b;
     progressCallbacks := progressCallbacks b;
     downloads := downloads b; mediaLog := l |}.

(** *** Setters, browser primitives and the element *)

Definition P : Type -> Type := M Player.

Definition setIsPlaying (b : bool) : P unit := modify (with_st (put_isPlaying b)).
Definition setIsLoading (b : bool) : P unit := modify (with_st (put_isLoading b)).
Definition setDuration (d : Q) : P unit := modify (with_st (put_duration d)).
Definition setCurrentTime (t : Q) : P unit := modify (with_st (put_currentTime t)).
Definition setError (e : option string) : P unit := modify (with_st (put_error e)).
Definition setResumeAvailable (b : bool) : P unit :=
  modify (with_st (put_resumeAvailable b)).
Definition setResumePosition (p : Q) : P unit :=
  modify (with_st (put_resumePosition (Some p))).
Definition setShowStartOver (b : bool) : P unit :=
  modify (with_st (put_showStartOver b)).
Definition setCompletionPercentage (p : Q) : P unit :=
  modify (with_st (put_completionPercentage p)).

(** [setInterval(f, ms)]: a new live timer with a fresh id.  Browser
    timer ids are positive integers, hence truthy. *)
Definition setInterval (ms : Z) : P positive :=
  fun c =>
    let id := nextInterval (browser c) in
    (Normal id,
     with_browser (fun b => put_intervals (<[id := ms]> (intervals b)) (Pos.succ id) b) c).

Definition clearInterval (id : positive) : P unit :=
  modify (with_browser
            (fun b => put_intervals (delete id (intervals b)) (nextInterval b) b)).

Definition createObjectURL : P positive :=
  fun c =>
    let h := nextObjectUrl (browser c) in
    (Normal h,
     with_browser
       (fun b => put_objectUrls ({[h]} ∪ objectUrls b) (Pos.succ h) (revokeCalls b) b)
       c).

Definition revokeObjectURL (h : positive) : P unit :=
  modify (with_browser
            (fun b => put_objectUrls (objectUrls b ∖ {[h]}) (nextObjectUrl b)
                        (revokeCalls b ++ [h]) b)).

(** [fetch(url, init)]: the request goes out, then the promise settles. *)
Definition fetch {B} (req : Request) (o : FetchOutcome B) : P (Response B) :=
  modify (with_browser (fun b => put_requests (requests b ++ [req]) b)) ;;;
  match o with
  | NetworkError e => throw e
  | Responded r => ret r
  end.

(** [await response.json()], [.text()], [.blob()] *)
Definition read_body {B} (r : Response B) : P B :=
  match body r with
  | Normal b => ret b
  | Throw e => throw e
  end.

Definition nullRefError : JsError :=
  {| err_name := "TypeError";
     err_message := "Cannot set properties of null" |}.

(** A write to, or a call on, [audioRef.current]: a [TypeError] when the
    ref is [null]. *)
Definition on_audio (ev : MediaEvent) (f : Audio -> Audio) : P unit :=
  fun c =>
    match audioRef c with
    | Some a =>
        (Normal tt,
         with_browser (fun b => put_mediaLog (mediaLog b ++ [ev]) b)
           (with_audioRef (fun _ => Some (f a)) c))
    | None => (Throw nullRefError, c)
    end.

Definition assign_src (v : MediaSrc) : P unit := on_audio (AssignSrc v) (put_src v).

(** Where the element moves when [t] is assigned to its [currentTime]:
    once it has a duration, to the position in [0, duration] nearest to
    [t]; without metadata it keeps [t] as the position to start from. *)
Definition seek_position (a : Audio) (t : Q) : Q :=
  if Qlt_bool 0 (media_duration a)
  then Qmin (Qmax t 0) (media_duration a)
  else t.

(** [audioRef.current.currentTime = t]; the log keeps the value that was
    assigned, the element the position it moved to.  Numbers are finite
    here: a target that is not finite makes the setter throw. *)
Definition assign_currentTime (t : Q) : P unit :=
  on_audio (AssignCurrentTime t)
    (fun a => put_media_currentTime (seek_position a t) a).

Definition assign_onloadedmetadata (l : Listener) : P unit :=
  on_audio AssignOnLoadedMetadata (put_onloadedmetadata l).

Definition media_pause : P unit := on_audio CallPause (put_paused true).

(** What [audioRef.current.play()] settles to. *)
Inductive PlayOutcome : Type :=
| PlayStarts
| PlayRejects (e : JsError).

Definition media_play (o : PlayOutcome) : P unit :=
  match o with
  | PlayStarts => on_audio CallPlay (put_paused false)
  | PlayRejects e => on_audio CallPlay (fun a => a) ;;; throw e
  end.

(** *** Endpoints (hard coded to book 2) *)

(** [BOOK_ID] is the number 2; the endpoints use its rendering in a
    template literal. *)
Definition BOOK_ID : string := "2".

Definition getStreamingUrl (c : Player) : string :=
  apiBaseUrl (props c) ++ "/audioStreaming/books/" ++ BOOK_ID ++ "/audio?resume=true".

Definition getProgressUrl (c : Player) : string :=
  apiBaseUrl (props c) ++ "/audioStreaming/books/" ++ BOOK_ID ++ "/progress".

(** *** Progress tracking *)

(** [updateProgress(position, status)]; [net] is what its [fetch] settles
    to.  The body of a progress response is only logged. *)
Definition updateProgress (position : Q) (status : string)
    (net : FetchOutcome unit) : P unit :=
  c <- get ;;
  let progressUrl := getProgressUrl c in
  if negb (truthy_string progressUrl) || negb (truthy_opt_string (authToken (props c)))
  then ret tt
  else
    let requestBody := (Qfloor position, status, playbackRate (st c)) in
    try_catch
      (response <- fetch {| req_method := "POST"; req_url := progressUrl;
                            req_bearer := authToken (props c);
                            req_body := Some requestBody |} net ;;
       if ok response then
         read_body response ;;;
         match onProgressUpdate (props c) with
         | Some cb =>
             modify (with_browser
                       (fun b => put_progressCallbacks
                                   (progressCallbacks b
                                    ++ [(position, status, playbackRate (st c))]) b)) ;;;
             match cb_raises cb with
             | Some e => throw e
             | None => ret tt
             end
         | None => ret tt
         end
       else
         read_body response ;;; ret tt)
      (fun err => ret tt).

(** *** Player controls *)

Definition userFriendlyError (err : JsError) : string :=
  if String.eqb (err_name err) "NotAllowedError"
  then "Playback blocked by browser. Please click play again."
  else if String.eqb (err_name err) "NotSupportedError"
  then "Audio format not supported by this browser."
  else "Failed to play audio. Please try again.".

Definition handlePlay (o : PlayOutcome) : P unit :=
  c <- get ;;
  match audioRef c with
  | None => ret tt
  | Some _ =>
      try_catch
        (media_play o ;;;
         setIsPlaying true ;;;
         setError None ;;;
         id <- setInterval 30000 ;;
         modify (with_progressIntervalRef (Some id)))
        (fun err => setError (Some (userFriendlyError err)))
  end.

Definition handlePause (net : FetchOutcome unit) : P unit :=
  c <- get ;;
  match audioRef c with
  | None => ret tt
  | Some a =>
      let pausePosition := media_currentTime a in
      media_pause ;;;
      setIsPlaying false ;;;
      match progressIntervalRef c with
      | Some id => clearInterval id
      | None => ret tt
      end ;;;
      fire_and_forget (updateProgress pausePosition "paused" net)
  end.

Definition handleSeek (newTime : Q) (net : FetchOutcome unit) : P unit :=
  c <- get ;;
  match audioRef c with
  | None => ret tt
  | Some _ =>
      assign_currentTime newTime ;;;
      setCurrentTime newTime ;;;
      fire_and_forget
        (updateProgress newTime
           (if isPlaying (st c) then "playing" else "paused") net)
  end.

Definition handleSkipForward (net : FetchOutcome unit) : P unit :=
  c <- get ;;
  let newTime := Qmin (currentTime (st c) + 30) (duration (st c)) in
  handleSeek newTime net.

Definition handleSkipBackward (net : FetchOutcome unit) : P unit :=
  c <- get ;;
  let newTime := Qmax (currentTime (st c) - 30) 0 in
  handleSeek newTime net.

(** *** Effects run on mount and unmount *)

(** The "Initialize audio source" effect; [net] is what the fetch of the
    audio settles to (the body is the blob). *)
Definition initAudioSource (net : FetchOutcome unit) : P unit :=
  c <- get ;;
  let streamingUrl := getStreamingUrl c in
  match audioRef c with
  | Some _ =>
      if truthy_string streamingUrl then
        setIsLoading true ;;;
        setError None ;;;
        if truthy_opt_string (authToken (props c)) then
          try_catch
            (response <- fetch {| req_method := "GET"; req_url := streamingUrl;
                                  req_bearer := authToken (props c);
                                  req_body := None |} net ;;
             (if negb (ok response)
              then throw (mkError "Failed to fetch audio")
              else ret tt) ;;;
             read_body response ;;;
             url <- createObjectURL ;;
             assign_src (SrcObjectUrl url) ;;;
             setIsLoading false)
            (fun err =>
               setError (Some "Failed to load audio. Please check your connection.") ;;;
               setIsLoading false)
        else
          assign_src (SrcUrl streamingUrl) ;;;
          setIsLoading false
      else ret tt
  | None => ret tt
  end.

(** The function returned by the "Cleanup" effect, run on unmount. *)
Definition cleanup : P unit :=
  c <- get ;;
  match progressIntervalRef c with
  | Some id => clearInterval id
  | None => ret tt
  end.

(** *** Resume and start over *)

(** The [progress] object of a progress response. *)
Record ProgressRecord : Type :=
  { position : JsVal;
    completion_percentage : JsVal;
    is_finished : JsVal;
    playback_speed : JsVal }.

(** [checkResume]; the body of the response is [data && data.progress]:
    [None] when either is missing.  After [typeof position === 'number']
    the position is the number [pos]. *)
Definition checkResume (net : FetchOutcome (option ProgressRecord)) : P unit :=
  c <- get ;;
  let progressUrl := getProgressUrl c in
  if negb (truthy_string progressUrl) || negb (truthy_opt_string (authToken (props c)))
  then ret tt
  else
    try_catch
      (response <- fetch {| req_method := "GET"; req_url := progressUrl;
                            req_bearer := authToken (props c);
                            req_body := None |} net ;;
       if ok response then
         data <- read_body response ;;
         match data with
         | Some progress =>
             setCompletionPercentage
               (num_or_zero (parseFloat (completion_percentage progress))) ;;;
             match position progress with
             | JNum pos =>
                 if Qlt_bool 0 pos
                    && num_lt (parseFloat (completion_percentage progress)) (Some 100%Q)
                 then setResumeAvailable true ;;; setResumePosition pos
                 else setResumeAvailable false
             | _ => setResumeAvailable false
             end ;;;
             if strict_eq_one_or_true (is_finished progress)
             then setShowStartOver true
             else setShowStartOver false
         | None => ret tt
         end
       else ret tt)
      (fun e =>
         setResumeAvailable false ;;;
         setShowStartOver false ;;;
         setCompletionPercentage 0).

(** The three buttons under the controls, each with the condition of its
    JSX guard. *)
Definition renders_Resume (c : Player) : bool :=
  negb (isPlaying (st c)) && resumeAvailable (st c)
  && Qlt_bool (completionPercentage (st c)) 100
  && negb (showStartOver (st c)).

Definition renders_RestartBook (c : Player) : bool :=
  resumeAvailable (st c)
  && match resumePosition (st c) with
     | Some p => Qlt_bool 0 (duration (st c)) && Qle_bool (duration (st c)) p
     | None => false
     end.

Definition renders_StartOverAgain (c : Player) : bool :=
  negb (isPlaying (st c)) && showStartOver (st c).

Definition handleResume (net : FetchOutcome unit) : P unit :=
  c <- get ;;
  let streamingUrl :=
    apiBaseUrl (props c) ++ "/audioStreaming/books/" ++ BOOK_ID ++ "/audio?resume=true" in
  setIsLoading true ;;;
  setError None ;;;
  if truthy_opt_string (authToken (props c)) then
    try_catch
      (response <- fetch {| req_method := "GET"; req_url := streamingUrl;
                            req_bearer := authToken (props c);
                            req_body := None |} net ;;
       (if negb (ok response)
        then throw (mkError "Failed to fetch audio")
        else ret tt) ;;;
       read_body response ;;;
       url <- createObjectURL ;;
       assign_src (SrcObjectUrl url) ;;;
       setIsLoading false ;;;
       setIsPlaying true ;;;
       assign_onloadedmetadata (ResumeOnMetadata (resumePosition (st c))))
      (fun err =>
         setError (Some "Failed to resume audio.") ;;;
         setIsLoading false)
  else
    assign_src (SrcUrl streamingUrl) ;;;
    setIsLoading false ;;;
    setIsPlaying true ;;;
    assign_onloadedmetadata (ResumeOnMetadata (resumePosition (st c))).

(** The body of the function stored by [handleResume]. *)
Definition run_listener (l : Listener) (o : PlayOutcome) : P unit :=
  match l with
  | ResumeOnMetadata rp =>
      match rp with
      | Some p => if truthy_opt_num rp then assign_currentTime p else ret tt
      | None => ret tt
      end ;;;
      try_catch (media_play o) (fun _ => ret tt)
  end.

(** [onLoadedMetadata] of the [<audio>] element. *)
Definition handleLoadedMetadata (o : PlayOutcome) : P unit :=
  c <- get ;;
  match audioRef c with
  | Some a =>
      setDuration (media_duration a) ;;;
      setIsLoading false ;;;
      if autoPlay (props c) then fire_and_forget (handlePlay o) else ret tt
  | None => ret tt
  end.

(** The element reports a duration [d] and fires [loadedmetadata]: the
    listener React attached at mount runs, then the one stored in the
    [onloadedmetadata] property.  Each has its own [play()] outcome. *)
Definition loadedmetadata (d : Q) (o1 o2 : PlayOutcome) : P unit :=
  modify (with_audioRef (option_map (put_media_duration d))) ;;;
  modify (with_browser (fun b => put_mediaLog (mediaLog b ++ [MetadataLoaded]) b)) ;;;
  handleLoadedMetadata o1 ;;;
  c <- get ;;
  match audioRef c with
  | Some a =>
      match onloadedmetadata a with
      | Some l => run_listener l o2
      | None => ret tt
      end
  | None => ret tt
  end.

(** *** Download *)

Definition handleDownload (net : FetchOutcome unit) : P unit :=
  c <- get ;;
  let streamingUrl := getStreamingUrl c in
  if truthy_string streamingUrl then
    if truthy_opt_string (authToken (props c)) then
      try_catch
        (response <- fetch {| req_method := "GET"; req_url := streamingUrl;
                              req_bearer := authToken (props c);
                              req_body := None |} net ;;
         (if negb (ok response)
          then throw (mkError "Download failed")
          else ret tt) ;;;
         read_body response ;;;
         url <- createObjectURL ;;
         modify (with_browser
                   (fun b => put_downloads (downloads b ++ [SrcObjectUrl url]) b)) ;;;
         revokeObjectURL url)
        (fun err => setError (Some "Download failed. Please try again."))
    else
      modify (with_browser
                (fun b => put_downloads (downloads b ++ [SrcUrl streamingUrl]) b))
  else ret tt.

End AudioPlayer.

(** ** The auth context (AuthProvider) and the view the app shows *)

Module AuthContext.

Local Open Scope js_scope.

(** The profile [GET /user/me] returns. *)
Record UserData : Type := { name : option string; email : option string }.

(** The provider's state cells and the browser's [localStorage]. *)
Record Auth : Type :=
  { authToken : option string;
    user : option UserData;
    isLoading : bool;
    localStorage : gmap string string;
    requests : list Request }.

(** [config.auth.tokenKey] and the endpoint of the validation request. *)
Definition tokenKey : string := "authToken".

Definition userMeUrl (apiBaseUrl : string) : string := apiBaseUrl ++ "/user/me".

Definition initial (storage : gmap string string) : Auth :=
  {| authToken := None; user := None; isLoading := true;
     localStorage := storage; requests := [] |}.

Definition A : Type -> Type := M Auth.

Definition setAuthToken (t : option string) : A unit :=
  modify (fun a => {| authToken := t; user := user a; isLoading := isLoading a;
                      localStorage := localStorage a; requests := requests a |}).

Definition setUser (u : option UserData) : A unit :=
  modify (fun a => {| authToken := authToken a; user := u; isLoading := isLoading a;
                      localStorage := localStorage a; requests := requests a |}).

Definition setIsLoading (b : bool) : A unit :=
  modify (fun a => {| authToken := authToken a; user := user a; isLoading := b;
                      localStorage := localStorage a; requests := requests a |}).

Definition localStorage_setItem (k v : string) : A unit :=
  modify (fun a => {| authToken := authToken a; user := user a;
                      isLoading := isLoading a;
                      localStorage := <[k := v]> (localStorage a);
                      requests := requests a |}).

Definition localStorage_removeItem (k : string) : A unit :=
  modify (fun a => {| authToken := authToken a; user := user a;
                      isLoading := isLoading a;
                      localStorage := delete k (localStorage a);
                      requests := requests a |}).

Definition fetch {B} (req : Request) (o : FetchOutcome B) : A (Response B) :=
  modify (fun a => {| authToken := authToken a; user := user a;
                      isLoading := isLoading a; localStorage := localStorage a;
                      requests := requests a ++ [req] |}) ;;;
  match o with
  | NetworkError e => throw e
  | Responded r => ret r
  end.

Definition read_body {B} (r : Response B) : A B :=
  match body r with
  | Normal b => ret b
  | Throw e => throw e
  end.

Definition login (token : string) (userData : UserData) : A unit :=
  setAuthToken (Some token) ;;;
  setUser (Some userData) ;;;
  localStorage_setItem tokenKey token.

Definition logout : A unit :=
  setAuthToken None ;;;
  setUser None ;;;
  localStorage_removeItem tokenKey.

Definition validateToken (apiBaseUrl token : string)
    (net : FetchOutcome UserData) : A unit :=
  try_finally
    (try_catch
       (response <- fetch {| req_method := "GET"; req_url := userMeUrl apiBaseUrl;
                             req_bearer := Some token; req_body := None |} net ;;
        if ok response then
          userData <- read_body response ;;
          setUser (Some userData)
        else
          logout)
       (fun err => logout))
    (setIsLoading false).

(** The mount effect: look for a stored token and validate it. *)
Definition checkExistingToken (apiBaseUrl : string)
    (net : FetchOutcome UserData) : A unit :=
  a <- get ;;
  match localStorage a !! tokenKey with
  | Some token =>
      if truthy_string token then
        setAuthToken (Some token) ;;;
        fire_and_forget (validateToken apiBaseUrl token net)
      else setIsLoading false
  | None => setIsLoading false
  end.

Definition isAuthenticated (a : Auth) : bool := truthy_opt_string (authToken a).

(** What [AppContent] returns. *)
Inductive View : Type := LoadingView | LoginView | PlayerView.

Definition AppContent (a : Auth) : View :=
  if isLoading a then LoadingView
  else if negb (isAuthenticated a) then LoginView
  else PlayerView.

End AuthContext.

(** ** Vocabulary of the statements *)

Module Statements.

Import AudioPlayer.
Local Open Scope js_scope.

(** The request a progress push sends. *)
Definition progressRequest (c : Player) (position : Q) (status : string) : Request :=
  {| req_method := "POST"; req_url := getProgressUrl c;
     req_bearer := authToken (props c);
     req_body := Some (Qfloor position, status, playbackRate (st c)) |}.

Definition log_request (r : Request) (c : Player) : Player :=
  with_browser (fun b => put_requests (requests b ++ [r]) b) c.

(** Everything but the two logs a push writes ([requests] and
    [progressCallbacks]) is the same in [c] and [c']. *)
Definition same_but_push_logs (c c' : Player) : Prop :=
  props c' = props c /\ st c' = st c /\ audioRef c' = audioRef c
  /\ progressIntervalRef c' = progressIntervalRef c
  /\ intervals (browser c') = intervals (browser c)
  /\ nextInterval (browser c') = nextInterval (browser c)
  /\ objectUrls (browser c') = objectUrls (browser c)
  /\ nextObjectUrl (browser c') = nextObjectUrl (browser c)
  /\ revokeCalls (browser c') = revokeCalls (browser c)
  /\ downloads (browser c') = downloads (browser c)
  /\ mediaLog (browser c') = mediaLog (browser c).

(** *** Sample instances *)

Definition signedIn : Props :=
  {| apiBaseUrl := "http://localhost:10000"; authToken := Some "jwt";
     onProgressUpdate := None; autoPlay := false |}.

Definition anonymous : Props :=
  {| apiBaseUrl := "http://localhost:10000"; authToken := None;
     onProgressUpdate := None; autoPlay := false |}.

Definition respond {B} (code : Z) (b : B) : FetchOutcome B :=
  Responded {| status := code; body := Normal b |}.

Definition offline {B} : FetchOutcome B :=
  NetworkError {| err_name := "TypeError"; err_message := "Failed to fetch" |}.

Definition notAllowed : JsError :=
  {| err_name := "NotAllowedError"; err_message := "play() failed" |}.

(** A signed-in player whose audio has loaded with a duration of 100 s. *)
Definition loaded100 : Player :=
  exec (loadedmetadata 100 PlayStarts PlayStarts)
    (exec (initAudioSource (respond 200 tt)) (mounted signedIn)).

(** The same player after the user pressed play. *)
Definition playing100 : Player := exec (handlePlay PlayStarts) loaded100.

Definition progressRecord (pos pct : Q) (fin : JsVal) : ProgressRecord :=
  {| position := JNum pos; completion_percentage := JNum pct;
     is_finished := fin; playback_speed := JNum 1 |}.


(** The loaded player after it fetched a record saved at 120 s, 25 %
    complete and not finished. *)
Definition resumable100 : Player :=
  exec (checkResume (respond 200 (Some (progressRecord 120 25 (JBool false)))))
    loaded100.


(** *** The affordance rule (section 4.2 of the specification) *)

Definition finished (r : ProgressRecord) : bool :=
  strict_eq_one_or_true (is_finished r).

(** [position] is a number above 0 and [completion_percentage] parses to
    a number below 100. *)
Definition resumable (r : ProgressRecord) : bool :=
  match position r with
  | JNum pos => Qlt_bool 0 pos
  | _ => false
  end && num_lt (parseFloat (completion_percentage r)) (Some 100%Q).

Definition position_number (r : ProgressRecord) : option Q :=
  match position r with JNum pos => Some pos | _ => None end.

(** The rule as the specification words it, read on the instance [c']
    that has taken in record [r]. *)
Definition affordance_rule (r : ProgressRecord) (c' : Player) : Prop :=
  if finished r then
    renders_StartOverAgain c' = true /\ renders_Resume c' = false
  else if resumable r then
    renders_Resume c' = true /\ renders_StartOverAgain c' = false
    /\ resumePosition (st c') = position_number r
  else
    renders_Resume c' = false /\ renders_StartOverAgain c' = false.

(** *** Seeking *)


(** *** Sequences of play and pause calls *)

Inductive Call : Type :=
| DoPlay (o : PlayOutcome)
| DoPause (net : FetchOutcome unit).

Definition is_play (k : Call) : bool :=
  match k with DoPlay _ => true | DoPause _ => false end.

Definition run_call (k : Call) : P unit :=
  match k with
  | DoPlay o => handlePlay o
  | DoPause net => handlePause net
  end.

(** No two neighbours are both plays or both pauses. *)
Fixpoint alternating (ks : list Call) : bool :=
  match ks with
  | k1 :: rest =>
      match rest with
      | k2 :: _ => negb (Bool.eqb (is_play k1) (is_play k2)) && alternating rest
      | [] => true
      end
  | [] => true
  end.

(** Each call with the instance before and after it. *)
Fixpoint trace (ks : list Call) (c : Player) : list (Call * Player * Player) :=
  match ks with
  | [] => []
  | k :: rest =>
      let c' := exec (run_call k) c in
      (k, c, c') :: trace rest c'
  end.

Definition live (c : Player) : gmap positive Z := intervals (browser c).

(** What one call does to the set of live timers. *)
Definition timers_ok (step : Call * Player * Player) : Prop :=
  let '(k, before, after) := step in
  size (live after) <= 1
  /\ match k with
     | DoPause _ => live after = ∅
     | DoPlay PlayStarts =>
         match audioRef before with
         | Some _ =>
             live before = ∅
             /\ live after = {[nextInterval (browser before) := 30000%Z]}
             /\ progressIntervalRef after = Some (nextInterval (browser before))
         | None => live after = live before
         end
     | DoPlay (PlayRejects _) => live after = live before
     end.

(** At most the timer [progressIntervalRef] names is live. *)
Definition only_ref_timer (c : Player) : Prop :=
  live c = ∅
  \/ exists id ms, live c = {[id := ms]} /\ progressIntervalRef c = Some id
                /\ is_Some (audioRef c).

(** *** Mount and unmount *)

(** One life of a signed-in player in browser [b]: mount, the audio
    arrives, play starts, unmount. *)
Definition playThenUnmount (p : Props) (b : Browser) : Browser :=
  browser
    (exec cleanup
       (exec (handlePlay PlayStarts)
          (exec (initAudioSource (respond 200 tt)) (mountOn p b)))).

(** *** The Resume action *)

(** Whether [handleResume] gets its source: always without a token, and
    with one when the fetch brings a 2xx response whose blob can be
    read. *)
Definition resume_source_ready (c : Player) (net : FetchOutcome unit) : bool :=
  if truthy_opt_string (authToken (props c)) then
    match net with
    | Responded r =>
        ok r && match body r with Normal _ => true | Throw _ => false end
    | NetworkError _ => false
    end
  else true.

(** The source [handleResume] assigns, and the request that fetched it. *)
Definition resume_src (c : Player) : MediaSrc :=
  if truthy_opt_string (authToken (props c))
  then SrcObjectUrl (nextObjectUrl (browser c))
  else SrcUrl (getStreamingUrl c).

Definition resume_request (c : Player) : Request :=
  {| req_method := "GET";
     req_url := apiBaseUrl (props c) ++ "/audioStreaming/books/2/audio" ++ "?resume=true";
     req_bearer := authToken (props c);
     req_body := None |}.

(** The position assignment the stored listener makes: the saved
    position, when there is one and it is not 0. *)
Definition resume_target (c : Player) : list MediaEvent :=
  match resumePosition (st c) with
  | Some p => if truthy_opt_num (Some p) then [AssignCurrentTime p] else []
  | None => []
  end.

Definition assigns_position (ev : MediaEvent) : bool :=
  match ev with AssignCurrentTime _ => true | _ => false end.


End Statements.

(** ** More of the player: formatting, media events, other controls *)

Module PlayerEvents.

Import AudioPlayer.
Local Open Scope js_scope.

(** [Math.trunc] and the remainder [a % b] of JavaScript, whose sign is
    the dividend's: [a - b * trunc(a / b)]. *)
Definition Qtrunc (x : Q) : Z :=
  if Qle_bool 0 x then Qfloor x else Qceiling x.

Definition js_rem (a b : Q) : Q := (a - b * inject_Z (Qtrunc (a / b)))%Q.

(** [s.padStart(n, fill)] with a one-character [fill]. *)
Definition padStart (n : nat) (fill : Ascii.ascii) (s : string) : string :=
  string_of_list_ascii (repeat fill (n - String.length s)) ++ s.

(** The two locals of [formatTime] and the text it returns, for a
    finite time; an integer prints in decimal, as the code prints the
    whole numbers below 1e21. *)
Definition minutes (time : Q) : Z := Qfloor (time / 60).
Definition seconds (time : Q) : Z := Qfloor (js_rem time 60).

Definition formatTime (time : Q) : string :=
  pretty (minutes time) ++ ":" ++ padStart 2 "0"%char (pretty (seconds time)).

(** [formatTime] is also handed the element's [duration], which is
    [Infinity] for a stream without an end and [NaN] while there is no
    metadata.  The three operations of [formatTime] on such a number:
    the division and the remainder by 60, and [Math.floor] printed by
    the template literal. *)
Inductive JsNumber : Type :=
| Finite (q : Q)
| PlusInfinity
| MinusInfinity
| NotANumber.

Definition div60 (n : JsNumber) : JsNumber :=
  match n with
  | Finite q => Finite (q / 60)
  | PlusInfinity => PlusInfinity
  | MinusInfinity => MinusInfinity
  | NotANumber => NotANumber
  end.

Definition rem60 (n : JsNumber) : JsNumber :=
  match n with
  | Finite q => Finite (js_rem q 60)
  | PlusInfinity | MinusInfinity | NotANumber => NotANumber
  end.

Definition floor_text (n : JsNumber) : string :=
  match n with
  | Finite q => pretty (Qfloor q)
  | PlusInfinity => "Infinity"
  | MinusInfinity => "-Infinity"
  | NotANumber => "NaN"
  end.

(** [formatTime] on any number; on a finite one it is [formatTime]
    above.  Whole numbers are printed in decimal, as the code prints
    them below 1e21. *)
Definition formatTime_number (time : JsNumber) : string :=
  floor_text (div60 time) ++ ":" ++ padStart 2 "0"%char (floor_text (rem60 time)).

Definition getProgressPercentage (c : Player) : Q :=
  if Qlt_bool 0 (duration (st c))
  then ((currentTime (st c) / duration (st c)) * 100)%Q
  else 0%Q.

(** [onClick] of the progress bar: [clickX] is the offset of the click
    from the left edge, [width] the width of the bar.  The target is the
    exact product; the code rounds the quotient and the product to the
    nearest double, which keeps their order but not their last digits. *)
Definition progressBarClick (clickX width : Q) (net : FetchOutcome unit) : P unit :=
  c <- get ;;
  let newTime := ((clickX / width) * duration (st c))%Q in
  handleSeek newTime net.

(** [disabled] of the play/pause button: [isLoading || error]. *)
Definition playButtonDisabled (c : Player) : bool :=
  isLoading (st c) || truthy_opt_string (error (st c)).

(** *** Media events *)

Definition handleTimeUpdate : P unit :=
  c <- get ;;
  match audioRef c with
  | Some a => setCurrentTime (media_currentTime a)
  | None => ret tt
  end.

Definition handleLoadStart : P unit := setIsLoading true.

Definition handleCanPlay : P unit := setIsLoading false.

(** The table of [handleError] and the message it picks for the code of
    the element's error ([None] when there is no error object). *)
Definition errorMessages : gmap Z string :=
  {[ 1%Z := "MEDIA_ERR_ABORTED - The fetching process was aborted";
     2%Z := "MEDIA_ERR_NETWORK - A network error occurred";
     3%Z := "MEDIA_ERR_DECODE - An error occurred while decoding";
     4%Z := "MEDIA_ERR_SRC_NOT_SUPPORTED - The audio format is not supported" ]}.

Definition detailedError (errorCode : option Z) : string :=
  match errorCode with
  | Some code =>
      match errorMessages !! code with
      | Some msg => if truthy_string msg then msg else "Unknown audio error"
      | None => "Unknown audio error"
      end
  | None => "Unknown audio error"
  end.

Definition handleError : P unit :=
  setError (Some "Failed to load audio. Please check your connection.") ;;;
  setIsLoading false.

Definition handleEnded (net : FetchOutcome unit) : P unit :=
  c <- get ;;
  setIsPlaying false ;;;
  fire_and_forget (updateProgress (duration (st c)) "completed" net).

(** *** Other controls *)

(** [handleBookmark]; the value returned is the text handed to
    [alert]. *)
Definition handleBookmark (net : FetchOutcome unit) : P string :=
  c <- get ;;
  fire_and_forget (updateProgress (currentTime (st c)) "bookmarked" net) ;;;
  ret ("Bookmarked at " ++ formatTime (currentTime (st c))).

(** [onClick] of "Start Over Again" and of "Restart Book". *)
Definition clickStartOver (o : PlayOutcome) : P unit :=
  c <- get ;;
  match audioRef c with
  | Some _ =>
      assign_currentTime 0 ;;;
      try_catch (media_play o) (fun _ => ret tt) ;;;
      setIsPlaying true
  | None => ret tt
  end.

(** Whether a fetch of the audio brings a blob: a 2xx response whose
    body can be read. *)
Definition blob_arrives (net : FetchOutcome unit) : bool :=
  match net with
  | Responded r => ok r && match body r with Normal _ => true | Throw _ => false end
  | NetworkError _ => false
  end.

(** The media events that reach the component without a [play()] call
    of their own. *)
Inductive Signal : Type :=
| LoadStart
| CanPlay
| TimeUpdate
| Ended (net : FetchOutcome unit)
| MediaError.

Definition on_signal (s : Signal) : P unit :=
  match s with
  | LoadStart => handleLoadStart
  | CanPlay => handleCanPlay
  | TimeUpdate => handleTimeUpdate
  | Ended net => handleEnded net
  | MediaError => handleError
  end.

Definition on_signals (l : list Signal) (c : Player) : Player :=
  fold_left (fun c' s => exec (on_signal s) c') l c.


End PlayerEvents.


(** ** The login form (Login) under the auth provider *)

Module Login.

Local Open Scope js_scope.

Record Credentials : Type := { email : string; password : string }.

(** The JSON body of a login response, as far as the form and the app
    read it; the whole object is handed on as the user. *)
Record LoginData : Type :=
  { message : option string;
    token : option string;
    name : option string;
    user_email : option string }.

Definition as_user (data : LoginData) : AuthContext.UserData :=
  {| AuthContext.name := name data; AuthContext.email := user_email data |}.

(** The form's state cells, the login requests it has posted, and the
    provider whose [login] it is given as [onLoginSuccess]. *)
Record Form : Type :=
  { credentials : Credentials;
    isLoading : bool;
    error : option string;
    posted : list (string * Credentials);
    auth : AuthContext.Auth }.

Definition F : Type -> Type := M Form.

Definition setIsLoading (b : bool) : F unit :=
  modify (fun f => {| credentials := credentials f; isLoading := b;
                      error := error f; posted := posted f; auth := auth f |}).

Definition setError (e : option string) : F unit :=
  modify (fun f => {| credentials := credentials f; isLoading := isLoading f;
                      error := e; posted := posted f; auth := auth f |}).

(** A step of the provider, run on the provider inside the form's
    world. *)
Definition in_auth {A} (m : AuthContext.A A) : F A :=
  fun f =>
    match m (auth f) with
    | (r, a') =>
        (r, {| credentials := credentials f; isLoading := isLoading f;
               error := error f; posted := posted f; auth := a' |})
    end.

Definition post_login {B} (url : string) (o : FetchOutcome B) : F (Response B) :=
  f <- get ;;
  modify (fun f' => {| credentials := credentials f'; isLoading := isLoading f';
                       error := error f';
                       posted := posted f' ++ [(url, credentials f)];
                       auth := auth f' |}) ;;;
  match o with
  | NetworkError e => throw e
  | Responded r => ret r
  end.

Definition read_json {B} (r : Response B) : F B :=
  match body r with
  | Normal b => ret b
  | Throw e => throw e
  end.

(** [handleSubmit]; [statusText] is the status text of the response. *)
Definition handleSubmit (apiBaseUrl statusText : string)
    (net : FetchOutcome LoginData) : F unit :=
  setIsLoading true ;;;
  setError None ;;;
  try_finally
    (try_catch
       (response <- post_login (apiBaseUrl ++ "/user/login") net ;;
        data <- read_json response ;;
        (if negb (ok response)
         then throw (mkError
                       (match message data with
                        | Some m =>
                            if truthy_string m then m
                            else "Login failed: " ++ pretty (status response)
                                 ++ " " ++ statusText
                        | None =>
                            "Login failed: " ++ pretty (status response)
                            ++ " " ++ statusText
                        end))
         else ret tt) ;;;
        match token data with
        | Some t =>
            if truthy_string t then
              in_auth (AuthContext.localStorage_setItem AuthContext.tokenKey t) ;;;
              in_auth (AuthContext.login t (as_user data))
            else throw (mkError "No token received from server")
        | None => throw (mkError "No token received from server")
        end)
       (fun err => setError (Some (err_message err))))
    (setIsLoading false).

(** Whether a login answer carries a usable token: a 2xx response with
    a readable body whose token is not empty. *)
Definition grants_token (net : FetchOutcome LoginData) : option string :=
  match net with
  | Responded r =>
      if ok r then
        match body r with
        | Normal data =>
            match token data with
            | Some t => if truthy_string t then Some t else None
            | None => None
            end
        | Throw _ => None
        end
      else None
  | NetworkError _ => None
  end.

End Login.

(** ** The session logger (AudioPlayerLogger) *)

Module SessionLogger.

(** The levels the exported [sessionLogger] logs at. *)
Inductive Level : Type := info | debug | warn | error.

(** A session log entry; [data] is the object handed in, which the
    logger only stores (here as its JSON text). *)
Record LogEntry : Type :=
  { timestamp : Z;
    entry_sessionId : string;
    level : Level;
    category : string;
    message : string;
    data : string;
    sessionTime : Z }.

Inductive Meta : Type :=
| MetaNum (q : Q)
| MetaText (s : string).

Record PerfEntry : Type :=
  { perf_timestamp : Z;
    operation : string;
    duration : Q;
    metadata : list (string * Meta) }.

Record ErrorEntry : Type :=
  { error_timestamp : Z;
    error_name : string;
    error_message : string;
    error_stack : string;
    context : string;
    error_sessionTime : Z }.

(** What the [errors] array can hold: [trackError] pushes error entries,
    [trackPerformance('errors', ...)] a performance entry. *)
Inductive ErrorsItem : Type :=
| TrackedError (e : ErrorEntry)
| TrackedPerf (p : PerfEntry).

Record PerformanceMetrics : Type :=
  { loadTimes : list PerfEntry;
    seekOperations : list PerfEntry;
    networkRequests : list PerfEntry;
    errors : list ErrorsItem }.

Record AudioPlayerLogger : Type :=
  { sessionId : string;
    sessionLogs : list LogEntry;
    performanceMetrics : PerformanceMetrics;
    sessionStartTime : Z }.

(** The constructor; [id] is what [generateSessionId] made and [now] the
    clock. *)
Definition constructor (id : string) (now : Z) : AudioPlayerLogger :=
  {| sessionId := id; sessionLogs := [];
     performanceMetrics :=
       {| loadTimes := []; seekOperations := []; networkRequests := [];
          errors := [] |};
     sessionStartTime := now |}.

(** [l.slice(-n)]: the last [n] elements, all of [l] when it is
    shorter. *)
Definition slice_last {A} (n : nat) (l : list A) : list A :=
  drop (length l - n) l.

(** The entry [log] builds; the clock is read twice. *)
Definition logEntry (lg : AudioPlayerLogger) (lvl : Level)
    (cat msg dat : string) (now1 now2 : Z) : LogEntry :=
  {| timestamp := now1; entry_sessionId := sessionId lg; level := lvl;
     category := cat; message := msg; data := dat;
     sessionTime := (now2 - sessionStartTime lg)%Z |}.

(** [log]: the entry is pushed and the buffer cut back when it passes
    1000; the line also printed through [logger] is console output and
    is not modelled. *)
Definition log (lvl : Level) (cat msg dat : string) (now1 now2 : Z)
    (lg : AudioPlayerLogger) : AudioPlayerLogger :=
  let pushed := (sessionLogs lg ++ [logEntry lg lvl cat msg dat now1 now2])%list in
  {| sessionId := sessionId lg;
     sessionLogs := if (1000 <? length pushed)%nat
                    then slice_last 500 pushed else pushed;
     performanceMetrics := performanceMetrics lg;
     sessionStartTime := sessionStartTime lg |}.

Definition with_metrics (f : PerformanceMetrics -> PerformanceMetrics)
    (lg : AudioPlayerLogger) : AudioPlayerLogger :=
  {| sessionId := sessionId lg; sessionLogs := sessionLogs lg;
     performanceMetrics := f (performanceMetrics lg);
     sessionStartTime := sessionStartTime lg |}.

(** [trackPerformance]: the entry goes to the array [type] names among
    the four keys of [performanceMetrics]; any other name has no array
    (names inherited from [Object.prototype] are not modelled). *)
Definition trackPerformance (type op : string) (dur : Q)
    (meta : list (string * Meta)) (now : Z)
    (lg : AudioPlayerLogger) : AudioPlayerLogger :=
  let perfEntry := {| perf_timestamp := now; operation := op; duration := dur;
                      metadata := meta |} in
  if String.eqb type "loadTimes" then
    with_metrics (fun m => {| loadTimes := (loadTimes m ++ [perfEntry])%list;
                              seekOperations := seekOperations m;
                              networkRequests := networkRequests m;
                              errors := errors m |}) lg
  else if String.eqb type "seekOperations" then
    with_metrics (fun m => {| loadTimes := loadTimes m;
                              seekOperations := (seekOperations m ++ [perfEntry])%list;
                              networkRequests := networkRequests m;
                              errors := errors m |}) lg
  else if String.eqb type "networkRequests" then
    with_metrics (fun m => {| loadTimes := loadTimes m;
                              seekOperations := seekOperations m;
                              networkRequests := (networkRequests m ++ [perfEntry])%list;
                              errors := errors m |}) lg
  else if String.eqb type "errors" then
    with_metrics (fun m => {| loadTimes := loadTimes m;
                              seekOperations := seekOperations m;
                              networkRequests := networkRequests m;
                              errors := (errors m ++ [TrackedPerf perfEntry])%list |}) lg
  else lg.

Definition trackAudioLoad (dur : Q) (meta : list (string * Meta)) (now : Z)
    (lg : AudioPlayerLogger) : AudioPlayerLogger :=
  trackPerformance "loadTimes" "Audio Load" dur meta now lg.

Definition trackSeek (fromTime toTime dur : Q) (now : Z)
    (lg : AudioPlayerLogger) : AudioPlayerLogger :=
  trackPerformance "seekOperations" "Audio Seek" dur
    [("from", MetaNum fromTime); ("to", MetaNum toTime);
     ("distance", MetaNum (Qabs (toTime - fromTime)%Q))] now lg.

(** [x || fallback] on a string. *)
Definition or_text (x : option string) (fallback : string) : string :=
  match x with
  | Some s => if truthy_string s then s else fallback
  | None => fallback
  end.

(** [trackError]; the three fields of the error may be missing. *)
Definition trackError (name message stack : option string) (ctx : string)
    (now1 now2 : Z) (lg : AudioPlayerLogger) : AudioPlayerLogger :=
  let errorEntry :=
    {| error_timestamp := now1;
       error_name := or_text name "Unknown";
       error_message := or_text message "No message";
       error_stack := or_text stack "No stack trace";
       context := ctx;
       error_sessionTime := (now2 - sessionStartTime lg)%Z |} in
  with_metrics (fun m => {| loadTimes := loadTimes m;
                            seekOperations := seekOperations m;
                            networkRequests := networkRequests m;
                            errors := (errors m ++ [TrackedError errorEntry])%list |}) lg.

(** [Math.round]: the nearest integer, halves going up. *)
Definition js_round (x : Q) : Z := Qfloor (x + (1 # 2))%Q.

(** [calculateAverage], in exact arithmetic: the code's sum, quotient
    and product are rounded to the nearest double, which can move the
    result by one hundredth when the mean is within that rounding of a
    half hundredth. *)
Definition calculateAverage (metrics : list PerfEntry) : Q :=
  match metrics with
  | [] => 0
  | _ =>
      let sum := fold_left (fun acc metric => acc + duration metric) metrics 0 in
      inject_Z (js_round (sum / inject_Z (Z.of_nat (length metrics)) * 100)) / 100
  end%Q.

(** [getLogsByCategory] fills an object literal, which inherits the
    members of [Object.prototype]: a name of this list that is not an
    own property reads the inherited member. *)
Definition objectPrototypeMembers : list string :=
  [ "constructor"; "hasOwnProperty"; "isPrototypeOf"; "propertyIsEnumerable";
    "toLocaleString"; "toString"; "valueOf"; "__proto__";
    "__defineGetter__"; "__defineSetter__"; "__lookupGetter__";
    "__lookupSetter__" ]%string.

Definition inherited (key : string) : bool :=
  existsb (String.eqb key) objectPrototypeMembers.

(** What [categories[key]] can read: a number, the member inherited
    under [name], or the text of that member followed by [ones] times
    the character 1 (what [member + 1] and then [text + 1] give). *)
Inductive Tally : Type :=
| Number (n : nat)
| Member (name : string)
| Text (member : string) (ones : nat).

(** [categories[key]] *)
Definition read_category (categories : gmap string Tally) (key : string)
    : option Tally :=
  match categories !! key with
  | Some v => Some v
  | None => if inherited key then Some (Member key) else None
  end.

(** [(v || 0) + 1]: [undefined] and 0 are falsy, a member and a text
    are truthy and [+] appends to them. *)
Definition or_zero_plus_one (v : option Tally) : Tally :=
  match v with
  | None => Number 1
  | Some (Number n) => Number (n + 1)
  | Some (Member name) => Text name 1
  | Some (Text member ones) => Text member (ones + 1)
  end.

(** [categories[key] = v]: the setter behind [__proto__] ignores a value
    that is not an object, every other name becomes an own property. *)
Definition write_category (categories : gmap string Tally) (key : string)
    (v : Tally) : gmap string Tally :=
  if String.eqb key "__proto__" then categories else <[key := v]> categories.

(** [getLogsByCategory]: the own properties of the object it builds. *)
Definition getLogsByCategory (lg : AudioPlayerLogger) : gmap string Tally :=
  fold_left
    (fun categories entry =>
       write_category categories (category entry)
         (or_zero_plus_one (read_category categories (category entry))))
    (sessionLogs lg) ∅.

Record Summary : Type :=
  { summary_sessionId : string;
    sessionDuration : Z;
    totalLogs : nat;
    errorCount : nat;
    averageLoadTime : Q;
    averageSeekTime : Q;
    averageNetworkTime : Q;
    totalNetworkRequests : nat;
    logsByCategory : gmap string Tally;
    recentErrors : list ErrorsItem }.

Definition getSessionSummary (now : Z) (lg : AudioPlayerLogger) : Summary :=
  {| summary_sessionId := sessionId lg;
     sessionDuration := (now - sessionStartTime lg)%Z;
     totalLogs := length (sessionLogs lg);
     errorCount := length (errors (performanceMetrics lg));
     averageLoadTime := calculateAverage (loadTimes (performanceMetrics lg));
     averageSeekTime := calculateAverage (seekOperations (performanceMetrics lg));
     averageNetworkTime := calculateAverage (networkRequests (performanceMetrics lg));
     totalNetworkRequests := length (networkRequests (performanceMetrics lg));
     logsByCategory := getLogsByCategory lg;
     recentErrors := slice_last 5 (errors (performanceMetrics lg)) |}.

(** *** Vocabulary of the statements *)

(** One call of [log], and a run of calls. *)
Record LogCall : Type :=
  { call_level : Level;
    call_category : string;
    call_message : string;
    call_data : string;
    call_now1 : Z;
    call_now2 : Z }.

Definition log_call (k : LogCall) (lg : AudioPlayerLogger) : AudioPlayerLogger :=
  log (call_level k) (call_category k) (call_message k) (call_data k)
    (call_now1 k) (call_now2 k) lg.

Definition log_calls (ks : list LogCall) (lg : AudioPlayerLogger) : AudioPlayerLogger :=
  fold_left (fun lg' k => log_call k lg') ks lg.

Definition entry_of (lg : AudioPlayerLogger) (k : LogCall) : LogEntry :=
  logEntry lg (call_level k) (call_category k) (call_message k) (call_data k)
    (call_now1 k) (call_now2 k).

(** How many entries carry category [cat]. *)
Definition count_category (cat : string) (l : list LogEntry) : nat :=
  length (List.filter (fun e => String.eqb (category e) cat) l).

(** One more entry of category [cat] on what [categories[cat]] holds. *)
Definition bump (cat : string) (v : option Tally) : option Tally :=
  Some (or_zero_plus_one
          (match v with
           | Some w => Some w
           | None => if inherited cat then Some (Member cat) else None
           end)).

(** A buffer that is full: 1000 entries logged on a new logger. *)
Definition fullLogger : AudioPlayerLogger :=
  log_calls
    (repeat {| call_level := info; call_category := "UI";
               call_message := "click"; call_data := "{}";
               call_now1 := 1; call_now2 := 2 |} 1000)
    (constructor "audio-1" 0).

End SessionLogger.

(** ** The chapter list (ChapterPlayer) *)

Module ChapterPlayer.

Local Open Scope js_scope.

(** A progress object of the chapter list: the fields of the server's
    record and those [handleProgressUpdate] writes; a field that is not
    there is [JUndefined] (for [status], [None]). *)
Record ChapterProgress : Type :=
  { position : JsVal;
    status : option string;
    playback_speed : JsVal;
    completion_percentage : JsVal;
    is_finished : JsVal }.

(** [{}] *)
Definition emptyProgress : ChapterProgress :=
  {| position := JUndefined; status := None; playback_speed := JUndefined;
     completion_percentage := JUndefined; is_finished := JUndefined |}.

Record Chapter : Type :=
  { chapter_id : Z; title : string }.

(** The state cells, and the calls made to the parent's
    [onProgressUpdate]. *)
Record State : Type :=
  { selectedChapter : option Chapter;
    isChapterListOpen : bool;
    chapterProgress : gmap Z ChapterProgress;
    loadingProgress : bool;
    parentCalls : list (Q * string * Q * option Chapter) }.

Definition C : Type -> Type := M State.

Definition setChapterProgress (f : gmap Z ChapterProgress -> gmap Z ChapterProgress)
    : C unit :=
  modify (fun s => {| selectedChapter := selectedChapter s;
                      isChapterListOpen := isChapterListOpen s;
                      chapterProgress := f (chapterProgress s);
                      loadingProgress := loadingProgress s;
                      parentCalls := parentCalls s |}).

Definition setLoadingProgress (b : bool) : C unit :=
  modify (fun s => {| selectedChapter := selectedChapter s;
                      isChapterListOpen := isChapterListOpen s;
                      chapterProgress := chapterProgress s;
                      loadingProgress := b;
                      parentCalls := parentCalls s |}).

(** [ToNumber] on a scalar: [undefined] is [NaN], [null] is 0, a boolean
    is 0 or 1. *)
Definition to_number (v : JsVal) : option Q :=
  match v with
  | JUndefined => None
  | JNull => Some 0%Q
  | JBool b => Some (if b then 1%Q else 0%Q)
  | JNum q => Some q
  end.

(** [progress?.field] on a map entry that may be missing. *)
Definition field (f : ChapterProgress -> JsVal) (progress : option ChapterProgress)
    : JsVal :=
  match progress with
  | Some p => f p
  | None => JUndefined
  end.

Definition isChapterCompleted (s : State) (chapterId : Z) : bool :=
  let progress := chapterProgress s !! chapterId in
  match field is_finished progress with JBool b => b | _ => false end
  || match field is_finished progress with JNum q => Qeq_bool q 1 | _ => false end
  || match field completion_percentage progress with
     | JNum q => Qeq_bool q 100
     | _ => false
     end.

Definition hasChapterProgress (s : State) (chapterId : Z) : bool :=
  let progress := chapterProgress s !! chapterId in
  num_lt (Some 0%Q) (to_number (field position progress))
  && num_lt (to_number (field completion_percentage progress)) (Some 100%Q).

(** The guard of the "Resume" badge of a chapter row. *)
Definition showsResumeBadge (s : State) (chapterId : Z) : bool :=
  hasChapterProgress s chapterId && negb (isChapterCompleted s chapterId).

(** [handleProgressUpdate], the function handed to the player as
    [onProgressUpdate]; [parent] says whether the chapter player itself
    was given one. *)
Definition handleProgressUpdate (parent : bool) (pos : Q) (stat : string)
    (playbackRate : Q) : C unit :=
  s <- get ;;
  match selectedChapter s with
  | Some ch =>
      setChapterProgress
        (fun prev =>
           let old := default emptyProgress (prev !! chapter_id ch) in
           <[chapter_id ch :=
               {| position := JNum pos; status := Some stat;
                  playback_speed := JNum playbackRate;
                  completion_percentage := completion_percentage old;
                  is_finished := is_finished old |}]> prev)
  | None => ret tt
  end ;;;
  if parent
  then modify (fun s' => {| selectedChapter := selectedChapter s';
                            isChapterListOpen := isChapterListOpen s';
                            chapterProgress := chapterProgress s';
                            loadingProgress := loadingProgress s';
                            parentCalls :=
                              parentCalls s'
                              ++ [(pos, stat, playbackRate, selectedChapter s)] |})
  else ret tt.

(** [loadAllChapterProgress]; the body of the response is
    [progressData.progress], [None] when it is missing. *)
Definition loadAllChapterProgress (net : FetchOutcome (option ChapterProgress))
    : C unit :=
  setLoadingProgress true ;;;
  try_finally
    (try_catch
       (progressMap <-
          try_catch
            (match net with
             | NetworkError e => throw e
             | Responded response =>
                 if ok response then
                   match body response with
                   | Normal progress =>
                       ret ({[ 4%Z := default emptyProgress progress ]}
                            : gmap Z ChapterProgress)
                   | Throw e => throw e
                   end
                 else ret (∅ : gmap Z ChapterProgress)
             end)
            (fun _ => ret ({[ 4%Z := emptyProgress ]} : gmap Z ChapterProgress)) ;;
        setChapterProgress (fun _ => progressMap))
       (fun _ => ret tt))
    (setLoadingProgress false).

End ChapterPlayer.

(** ** The demo page's progress log *)

Module Demo.

Record ProgressLogEntry : Type :=
  { timestamp : string;
    position : Z;
    status : string;
    playbackRate : Q }.

(** [handleProgressUpdate] of the demo page, as the update it makes to
    [progressLog]; [clock] is the time text of the moment. *)
Definition handleProgressUpdate (clock : string) (pos : Q) (stat : string)
    (rate : Q) (progressLog : list ProgressLogEntry) : list ProgressLogEntry :=
  {| timestamp := clock; position := Qfloor pos; status := stat;
     playbackRate := rate |} :: take 9 progressLog.

(** One update, and a run of updates. *)
Record Update : Type :=
  { at_clock : string; at_position : Q; at_status : string; at_rate : Q }.

Definition entry_of (u : Update) : ProgressLogEntry :=
  {| timestamp := at_clock u; position := Qfloor (at_position u);
     status := at_status u; playbackRate := at_rate u |}.

Definition updates (us : list Update) (progressLog : list ProgressLogEntry)
    : list ProgressLogEntry :=
  fold_left
    (fun l u => handleProgressUpdate (at_clock u) (at_position u) (at_status u)
                  (at_rate u) l)
    us progressLog.

End Demo.

(** * Properties of the player *)

Module PlayerProofs.

Import AudioPlayer Statements.
Local Open Scope js_scope.

(** Unfolding of the monad's combinators and of the primitives. *)
Ltac unfold_monad :=
  unfold exec, completion, fire_and_forget, try_catch, try_finally, bind, ret,
    throw, get, modify in *.

Ltac unfold_prims :=
  unfold fetch, read_body, assign_src, assign_currentTime,
    assign_onloadedmetadata, media_pause, media_play, on_audio, setInterval,
    clearInterval, createObjectURL, revokeObjectURL, setIsPlaying,
    setIsLoading, setDuration, setCurrentTime, setError, setResumeAvailable,
    setResumePosition, setShowStartOver, setCompletionPercentage in *.

Lemma same_but_push_logs_refl c : same_but_push_logs c c.
Proof. repeat split. Qed.

Lemma truthy_append_literal (a : string) (ch : Ascii.ascii) (rest : string) :
  truthy_string (a ++ String ch rest) = true.
Proof. destruct a; reflexivity. Qed.

Lemma getProgressUrl_truthy c : truthy_string (getProgressUrl c) = true.
Proof. unfold getProgressUrl. apply truthy_append_literal. Qed.

Lemma getStreamingUrl_truthy c : truthy_string (getStreamingUrl c) = true.
Proof. unfold getStreamingUrl. apply truthy_append_literal. Qed.

(** A push without a token is the identity. *)
Lemma updateProgress_no_token c position status net :
  truthy_opt_string (authToken (props c)) = false ->
  updateProgress position status net c = (Normal tt, c).
Proof.
  intros Htok. unfold updateProgress. unfold_monad.
  rewrite Htok, orb_true_r. reflexivity.
Qed.

(** A failed push with a token sends its one request and does nothing
    else. *)
Lemma updateProgress_failed c position status net :
  truthy_opt_string (authToken (props c)) = true ->
  failed net = true ->
  updateProgress position status net c
  = (Normal tt, log_request (progressRequest c position status) c).
Proof.
  intros Htok Hfail. unfold updateProgress. unfold_monad.
  rewrite Htok, getProgressUrl_truthy. simpl.
  unfold_prims. unfold_monad. simpl.
  destruct net as [e | r]; simpl in *.
  - reflexivity.
  - apply negb_true_iff in Hfail. rewrite Hfail.
    destruct (body r); reflexivity.
Qed.

(** Whatever the network does, a push completes normally and touches only
    its two logs. *)
Lemma updateProgress_frame c position status net :
  completion (updateProgress position status net) c = Normal tt
  /\ same_but_push_logs c (exec (updateProgress position status net) c).
Proof.
  unfold updateProgress. unfold_monad.
  destruct (negb (truthy_string (getProgressUrl c))
            || negb (truthy_opt_string (authToken (props c)))); simpl.
  { split; [reflexivity | apply same_but_push_logs_refl]. }
  unfold_prims. unfold_monad. simpl.
  destruct net as [e | r]; simpl.
  { split; [reflexivity | repeat split]. }
  destruct (ok r); simpl; destruct (body r); simpl;
    try (split; [reflexivity | repeat split]).
  destruct (onProgressUpdate (props c)) as [cb |]; simpl;
    [destruct (cb_raises cb); simpl |]; split; try reflexivity; repeat split.
Qed.

(** C10: a progress push made while no auth token is present returns at
    once: it completes normally and the whole instance, the list of
    requests sent and every playback cell included, is as it was. *)
Theorem C10_push_without_token_is_noop
    (c : Player) (position : Q) (status : string) (net : FetchOutcome unit) :
  truthy_opt_string (authToken (props c)) = false ->
  completion (updateProgress position status net) c = Normal tt
  /\ exec (updateProgress position status net) c = c
  /\ requests (browser (exec (updateProgress position status net) c))
     = requests (browser c)
  /\ st (exec (updateProgress position status net) c) = st c.
Proof.
  intros Htok. unfold exec, completion.
  rewrite (updateProgress_no_token c position status net Htok). simpl.
  repeat split.
Qed.

Lemma C10_witness :
  completion (updateProgress 42 "playing" (respond 200 tt)) (mounted anonymous)
  = Normal tt
  /\ exec (updateProgress 42 "playing" (respond 200 tt)) (mounted anonymous)
     = mounted anonymous
  /\ requests (browser (exec (updateProgress 42 "playing" (respond 200 tt))
                          (mounted anonymous)))
     = requests (browser (mounted anonymous))
  /\ st (exec (updateProgress 42 "playing" (respond 200 tt)) (mounted anonymous))
     = st (mounted anonymous).
Proof.
  apply (C10_push_without_token_is_noop (mounted anonymous) 42 "playing"
           (respond 200 tt)).
  reflexivity.
Defined.

(** C6: when the request of a progress push fails (the fetch rejects or
    the response is not 2xx) the push completes normally, [isPlaying], the
    current position and the user-facing error are as before, and at most
    the one request of this push was sent: nothing is retried. *)
Theorem C6_failed_push_is_swallowed
    (c : Player) (position : Q) (status : string) (net : FetchOutcome unit) :
  failed net = true ->
  completion (updateProgress position status net) c = Normal tt
  /\ isPlaying (st (exec (updateProgress position status net) c))
     = isPlaying (st c)
  /\ currentTime (st (exec (updateProgress position status net) c))
     = currentTime (st c)
  /\ error (st (exec (updateProgress position status net) c)) = error (st c)
  /\ audioRef (exec (updateProgress position status net) c) = audioRef c
  /\ requests (browser (exec (updateProgress position status net) c))
     = (requests (browser c)
        ++ (if truthy_opt_string (authToken (props c))
            then [progressRequest c position status] else []))%list
  /\ progressCallbacks (browser (exec (updateProgress position status net) c))
     = progressCallbacks (browser c).
Proof.
  intros Hfail. unfold exec, completion.
  destruct (truthy_opt_string (authToken (props c))) eqn:Htok.
  - rewrite (updateProgress_failed c position status net Htok Hfail). simpl.
    repeat split.
  - rewrite (updateProgress_no_token c position status net Htok). simpl.
    rewrite app_nil_r. repeat split.
Qed.

Lemma C6_witness :
  completion (updateProgress 42 "playing" (respond 500 tt)) loaded100 = Normal tt
  /\ isPlaying (st (exec (updateProgress 42 "playing" (respond 500 tt)) loaded100))
     = isPlaying (st loaded100)
  /\ currentTime (st (exec (updateProgress 42 "playing" (respond 500 tt)) loaded100))
     = currentTime (st loaded100)
  /\ error (st (exec (updateProgress 42 "playing" (respond 500 tt)) loaded100))
     = error (st loaded100)
  /\ audioRef (exec (updateProgress 42 "playing" (respond 500 tt)) loaded100)
     = audioRef loaded100
  /\ requests (browser (exec (updateProgress 42 "playing" (respond 500 tt)) loaded100))
     = (requests (browser loaded100)
        ++ (if truthy_opt_string (authToken (props loaded100))
            then [progressRequest loaded100 42 "playing"] else []))%list
  /\ progressCallbacks
       (browser (exec (updateProgress 42 "playing" (respond 500 tt)) loaded100))
     = progressCallbacks (browser loaded100).
Proof.
  apply (C6_failed_push_is_swallowed loaded100 42 "playing" (respond 500 tt)).
  reflexivity.
Defined.

(** What a rejected [play()] leaves behind in [handlePlay]. *)
Lemma handlePlay_rejected c a e :
  audioRef c = Some a ->
  handlePlay (PlayRejects e) c
  = (Normal tt,
     with_st (put_error (Some (userFriendlyError e)))
       (with_browser (fun b => put_mediaLog (mediaLog b ++ [CallPlay]) b)
          (with_audioRef (fun _ => Some a) c))).
Proof.
  intros Ha. unfold handlePlay. unfold_monad. rewrite Ha.
  unfold_prims. unfold_monad. rewrite Ha. reflexivity.
Qed.

(** C5: when the element's [play()] rejects inside [handlePlay], the
    error shown is the blocked-by-browser message for [NotAllowedError],
    the format-not-supported message for [NotSupportedError] and the
    generic message for any other cause; [isPlaying] keeps its value (so
    it stays false) and no timer is started. *)
Theorem C5_rejected_play_reports_and_stays_stopped
    (c : Player) (a : Audio) (e : JsError) :
  audioRef c = Some a ->
  completion (handlePlay (PlayRejects e)) c = Normal tt
  /\ error (st (exec (handlePlay (PlayRejects e)) c)) = Some (userFriendlyError e)
  /\ (err_name e = "NotAllowedError" ->
      userFriendlyError e = "Playback blocked by browser. Please click play again.")
  /\ (err_name e = "NotSupportedError" ->
      userFriendlyError e = "Audio format not supported by this browser.")
  /\ (err_name e <> "NotAllowedError" -> err_name e <> "NotSupportedError" ->
      userFriendlyError e = "Failed to play audio. Please try again.")
  /\ isPlaying (st (exec (handlePlay (PlayRejects e)) c)) = isPlaying (st c)
  /\ live (exec (handlePlay (PlayRejects e)) c) = live c
  /\ progressIntervalRef (exec (handlePlay (PlayRejects e)) c)
     = progressIntervalRef c.
Proof.
  intros Ha. unfold exec, completion, live.
  rewrite (handlePlay_rejected c a e Ha). simpl.
  repeat split.
  - intros Hn. unfold userFriendlyError. rewrite Hn. reflexivity.
  - intros Hn. unfold userFriendlyError. rewrite Hn. reflexivity.
  - intros H1 H2. unfold userFriendlyError.
    apply String.eqb_neq in H1, H2. rewrite H1, H2. reflexivity.
Qed.

Lemma C5_witness :
  error (st (exec (handlePlay (PlayRejects notAllowed)) loaded100))
  = Some "Playback blocked by browser. Please click play again."
  /\ isPlaying (st (exec (handlePlay (PlayRejects notAllowed)) loaded100)) = false
  /\ live (exec (handlePlay (PlayRejects notAllowed)) loaded100) = ∅.
Proof.
  destruct (C5_rejected_play_reports_and_stays_stopped loaded100
              (put_media_duration 100 (put_src (SrcObjectUrl 1) freshAudio))
              notAllowed eq_refl)
    as (_ & Herr & _ & _ & _ & Hplaying & Hlive & _).
  rewrite Herr, Hplaying, Hlive. repeat split.
Defined.

(** The requests a push sends: one [POST] when a token is present, none
    otherwise, whatever the network answers. *)
Lemma updateProgress_requests c position status net :
  requests (browser (exec (updateProgress position status net) c))
  = (requests (browser c)
     ++ (if truthy_opt_string (authToken (props c))
         then [progressRequest c position status] else []))%list.
Proof.
  unfold updateProgress. unfold_monad.
  rewrite getProgressUrl_truthy. simpl.
  destruct (truthy_opt_string (authToken (props c))); simpl.
  2: { now rewrite app_nil_r. }
  unfold_prims. unfold_monad. simpl.
  destruct net as [e | r]; simpl; [reflexivity |].
  destruct (ok r); simpl; destruct (body r); simpl; try reflexivity.
  destruct (onProgressUpdate (props c)) as [cb |]; simpl;
    [destruct (cb_raises cb); simpl |]; reflexivity.
Qed.

(** [handleSeek] on an attached element: the target is assigned to the
    element, which moves to [seek_position], and goes to [currentTime] as
    it was given; then a push is made. *)
Lemma handleSeek_attached c a t net :
  audioRef c = Some a ->
  completion (handleSeek t net) c = Normal tt
  /\ st (exec (handleSeek t net) c) = put_currentTime t (st c)
  /\ audioRef (exec (handleSeek t net) c)
     = Some (put_media_currentTime (seek_position a t) a)
  /\ mediaLog (browser (exec (handleSeek t net) c))
     = (mediaLog (browser c) ++ [AssignCurrentTime t])%list
  /\ requests (browser (exec (handleSeek t net) c))
     = (requests (browser c)
        ++ (if truthy_opt_string (authToken (props c))
            then [progressRequest c t (if isPlaying (st c) then "playing" else "paused")]
            else []))%list.
Proof.
  intros Ha. unfold handleSeek. unfold_monad. rewrite Ha.
  unfold_prims. unfold_monad. rewrite Ha. simpl.
  match goal with
  | |- context [updateProgress ?p ?s net ?c1] =>
      pose proof (updateProgress_frame c1 p s net) as [_ Hframe];
      pose proof (updateProgress_requests c1 p s net) as Hreq;
      unfold exec in Hframe, Hreq;
      destruct (updateProgress p s net c1) as [r c2]
  end.
  destruct Hframe as (Hprops & Hst & Haudio & _ & _ & _ & _ & _ & _ & _ & Hlog).
  simpl in *. repeat split; assumption.
Qed.

Lemma handleSeek_detached c t net :
  audioRef c = None -> handleSeek t net c = (Normal tt, c).
Proof.
  intros Ha. unfold handleSeek. unfold_monad. rewrite Ha. reflexivity.
Qed.

(** The position a seek leaves in [currentTime] and the value it assigns
    to the element. *)
Lemma handleSeek_position c t net :
  currentTime (st (exec (handleSeek t net) c))
  = match audioRef c with Some _ => t | None => currentTime (st c) end
  /\ duration (st (exec (handleSeek t net) c)) = duration (st c)
  /\ mediaLog (browser (exec (handleSeek t net) c))
     = (mediaLog (browser c)
        ++ match audioRef c with Some _ => [AssignCurrentTime t] | None => [] end)%list.
Proof.
  destruct (audioRef c) as [a |] eqn:Ha.
  - destruct (handleSeek_attached c a t net Ha) as (_ & Hst & _ & Hlog & _).
    rewrite Hst, Hlog. repeat split.
  - unfold exec. rewrite (handleSeek_detached c t net Ha). simpl.
    rewrite app_nil_r. repeat split.
Qed.

Lemma skip_forward_target_in_range (p d : Q) :
  (0 <= p)%Q -> (p <= d)%Q -> (0 <= Qmin (p + 30) d /\ Qmin (p + 30) d <= d)%Q.
Proof.
  intros H0 H1. split.
  - apply Q.min_glb.
    + apply Qle_trans with p; [exact H0 |].
      rewrite <- (Qplus_0_r p) at 1. apply Qplus_le_r. discriminate.
    + apply Qle_trans with p; assumption.
  - apply Q.le_min_r.
Qed.

Lemma skip_backward_target_in_range (p d : Q) :
  (0 <= p)%Q -> (p <= d)%Q -> (0 <= Qmax (p - 30) 0 /\ Qmax (p - 30) 0 <= d)%Q.
Proof.
  intros H0 H1. split.
  - apply Q.le_max_r.
  - apply Q.max_lub.
    + apply Qle_trans with p; [| exact H1].
      rewrite <- (Qplus_0_r p) at 2. unfold Qminus. apply Qplus_le_r. discriminate.
    + apply Qle_trans with p; assumption.
Qed.

(** C7: from a position [p] with [0 <= p <= duration], [handleSkipForward]
    seeks to [min(p + 30, duration)] and [handleSkipBackward] to
    [max(p - 30, 0)]; the position either of them leaves is within
    [[0, duration]]. *)
Theorem C7_skip_stays_within_duration (c : Player) (net : FetchOutcome unit) :
  (0 <= currentTime (st c))%Q ->
  (currentTime (st c) <= duration (st c))%Q ->
  handleSkipForward net c
  = handleSeek (Qmin (currentTime (st c) + 30) (duration (st c))) net c
  /\ handleSkipBackward net c
     = handleSeek (Qmax (currentTime (st c) - 30) 0) net c
  /\ mediaLog (browser (exec (handleSkipForward net) c))
     = (mediaLog (browser c)
        ++ match audioRef c with
           | Some _ =>
               [AssignCurrentTime (Qmin (currentTime (st c) + 30) (duration (st c)))]
           | None => []
           end)%list
  /\ mediaLog (browser (exec (handleSkipBackward net) c))
     = (mediaLog (browser c)
        ++ match audioRef c with
           | Some _ => [AssignCurrentTime (Qmax (currentTime (st c) - 30) 0)]
           | None => []
           end)%list
  /\ (0 <= currentTime (st (exec (handleSkipForward net) c))
      /\ currentTime (st (exec (handleSkipForward net) c)) <= duration (st c))%Q
  /\ (0 <= currentTime (st (exec (handleSkipBackward net) c))
      /\ currentTime (st (exec (handleSkipBackward net) c)) <= duration (st c))%Q.
Proof.
  intros H0 H1.
  assert (Hf : handleSkipForward net c
               = handleSeek (Qmin (currentTime (st c) + 30) (duration (st c))) net c)
    by reflexivity.
  assert (Hb : handleSkipBackward net c
               = handleSeek (Qmax (currentTime (st c) - 30) 0) net c)
    by reflexivity.
  split; [exact Hf |]. split; [exact Hb |].
  unfold exec. rewrite Hf, Hb. fold (exec (handleSeek
    (Qmin (currentTime (st c) + 30) (duration (st c))) net) c).
  fold (exec (handleSeek (Qmax (currentTime (st c) - 30) 0) net) c).
  destruct (handleSeek_position c
              (Qmin (currentTime (st c) + 30) (duration (st c))) net)
    as (Hfc & _ & Hfe).
  destruct (handleSeek_position c (Qmax (currentTime (st c) - 30) 0) net)
    as (Hbc & _ & Hbe).
  rewrite Hfc, Hbc, Hfe, Hbe.
  destruct (audioRef c).
  - split; [reflexivity |]. split; [reflexivity |]. split.
    + apply skip_forward_target_in_range; assumption.
    + apply skip_backward_target_in_range; assumption.
  - split; [reflexivity |]. split; [reflexivity |]. split; split; assumption.
Qed.

Lemma C7_witness :
  (0 <= currentTime (st (exec (handleSkipForward offline)
                           (exec (handleSeek 80 offline) loaded100)))
   /\ currentTime (st (exec (handleSkipForward offline)
                         (exec (handleSeek 80 offline) loaded100))) <= 100)%Q
  /\ handleSkipForward offline (exec (handleSeek 80 offline) loaded100)
     = handleSeek 100 offline (exec (handleSeek 80 offline) loaded100)
  /\ handleSkipBackward offline (exec (handleSeek 20 offline) loaded100)
     = handleSeek 0 offline (exec (handleSeek 20 offline) loaded100).
Proof.
  assert (H80 : (0 <= currentTime (st (exec (handleSeek 80 offline) loaded100)))%Q)
    by (vm_compute; discriminate).
  assert (H80' : (currentTime (st (exec (handleSeek 80 offline) loaded100))
                  <= duration (st (exec (handleSeek 80 offline) loaded100)))%Q)
    by (vm_compute; discriminate).
  assert (H20 : (0 <= currentTime (st (exec (handleSeek 20 offline) loaded100)))%Q)
    by (vm_compute; discriminate).
  assert (H20' : (currentTime (st (exec (handleSeek 20 offline) loaded100))
                  <= duration (st (exec (handleSeek 20 offline) loaded100)))%Q)
    by (vm_compute; discriminate).
  destruct (C7_skip_stays_within_duration
              (exec (handleSeek 80 offline) loaded100) offline H80 H80')
    as (Hf & _ & _ & _ & Hfr & _).
  destruct (C7_skip_stays_within_duration
              (exec (handleSeek 20 offline) loaded100) offline H20 H20')
    as (_ & Hb & _ & _ & _ & _).
  split; [exact Hfr |]. split; [exact Hf | exact Hb].
Defined.

(** What [checkResume] writes when the fetch brings a progress record. *)
Lemma checkResume_record c code r :
  truthy_opt_string (authToken (props c)) = true ->
  (200 <= code <= 299)%Z ->
  checkResume (respond code (Some r)) c
  = (Normal tt,
     with_st
       (fun s =>
          put_showStartOver (finished r)
            ((if resumable r
              then fun s' => put_resumePosition (position_number r)
                               (put_resumeAvailable true s')
              else put_resumeAvailable false)
               (put_completionPercentage
                  (num_or_zero (parseFloat (completion_percentage r))) s)))
       (with_browser
          (fun b => put_requests
                      (requests b
                       ++ [{| req_method := "GET"; req_url := getProgressUrl c;
                              req_bearer := authToken (props c);
                              req_body := None |}]) b)
          c)).
Proof.
  intros Htok Hcode. unfold checkResume. unfold_monad.
  rewrite Htok, getProgressUrl_truthy. simpl.
  unfold_prims. unfold_monad. unfold respond, ok. simpl.
  replace ((200 <=? code)%Z && (code <=? 299)%Z) with true
    by (symmetry; apply andb_true_iff; split; apply Z.leb_le; lia).
  simpl. unfold finished, resumable, position_number.
  destruct (position r) as [| | b | pos]; simpl;
    try (destruct (strict_eq_one_or_true (is_finished r)); reflexivity).
  destruct (Qlt_bool 0 pos
            && num_lt (parseFloat (completion_percentage r)) (Some 100%Q));
    simpl; destruct (strict_eq_one_or_true (is_finished r)); reflexivity.
Qed.

Lemma resumable_below_100 r :
  resumable r = true ->
  Qlt_bool (num_or_zero (parseFloat (completion_percentage r))) 100 = true.
Proof.
  unfold resumable. intros H. apply andb_true_iff in H as [_ H].
  destruct (parseFloat (completion_percentage r)) as [q |]; simpl in *;
    [| discriminate].
  destruct (Qeq_bool q 0); [reflexivity | exact H].
Qed.

(** C1 as the specification words it fails: while the player is playing,
    a record with [is_finished = true] shows no Start-Over button. *)
Lemma C1_finished_record_while_playing_shows_nothing :
  ~ affordance_rule (progressRecord 0 100 (JBool true))
      (exec (checkResume (respond 200 (Some (progressRecord 0 100 (JBool true)))))
         playing100).
Proof.
  unfold affordance_rule. vm_compute. intros [H _]. discriminate.
Qed.

(** C1, amended: after a progress record is fetched, the Resume button
    and the Start Over Again button are never both visible, and while the
    player is not playing they follow the priority of the specification:
    Start Over Again alone when [is_finished] is [true] or [1]; otherwise
    Resume alone, carrying [position], when [position > 0] and
    [completion_percentage < 100]; otherwise neither.  While the player
    is playing neither of the two is shown.  The third button, Restart
    Book, has a guard of its own. *)
Theorem C1_affordances_follow_priority_when_not_playing
    (c : Player) (code : Z) (r : ProgressRecord) :
  truthy_opt_string (authToken (props c)) = true ->
  (200 <= code <= 299)%Z ->
  renders_StartOverAgain (exec (checkResume (respond code (Some r))) c)
  = negb (isPlaying (st c)) && finished r
  /\ renders_Resume (exec (checkResume (respond code (Some r))) c)
     = negb (isPlaying (st c)) && negb (finished r) && resumable r
  /\ renders_Resume (exec (checkResume (respond code (Some r))) c)
     && renders_StartOverAgain (exec (checkResume (respond code (Some r))) c)
     = false
  /\ resumePosition (st (exec (checkResume (respond code (Some r))) c))
     = (if resumable r then position_number r else resumePosition (st c))
  /\ renders_RestartBook (exec (checkResume (respond code (Some r))) c)
     = resumable r
       && match position_number r with
          | Some p => Qlt_bool 0 (duration (st c)) && Qle_bool (duration (st c)) p
          | None => false
          end
  /\ (if isPlaying (st c)
      then renders_Resume (exec (checkResume (respond code (Some r))) c) = false
           /\ renders_StartOverAgain (exec (checkResume (respond code (Some r))) c)
              = false
      else affordance_rule r (exec (checkResume (respond code (Some r))) c)).
Proof.
  intros Htok Hcode. unfold exec, affordance_rule.
  rewrite (checkResume_record c code r Htok Hcode).
  unfold renders_Resume, renders_StartOverAgain, renders_RestartBook.
  cbn [snd st with_st with_browser props audioRef progressIntervalRef browser].
  pose proof (resumable_below_100 r) as Hpct.
  destruct (resumable r) eqn:Hres;
    cbn [put_showStartOver put_resumePosition put_resumeAvailable
         put_completionPercentage isPlaying resumeAvailable resumePosition
         showStartOver completionPercentage duration];
    [rewrite (Hpct eq_refl) |];
    destruct (isPlaying (st c)); destruct (finished r);
    cbn [negb andb]; repeat split; try reflexivity;
    try (destruct (position_number r); reflexivity).
Qed.

Lemma C1_witness :
  affordance_rule (progressRecord 120 25 (JBool false))
    (exec (checkResume (respond 200 (Some (progressRecord 120 25 (JBool false)))))
       loaded100)
  /\ renders_Resume
       (exec (checkResume (respond 200 (Some (progressRecord 120 25 (JBool false)))))
          loaded100) = true
  /\ resumePosition
       (st (exec (checkResume
                    (respond 200 (Some (progressRecord 120 25 (JBool false)))))
              loaded100)) = Some 120%Q.
Proof.
  assert (Hcode : (200 <= 200 <= 299)%Z) by lia.
  destruct (C1_affordances_follow_priority_when_not_playing loaded100 200
              (progressRecord 120 25 (JBool false)) eq_refl Hcode)
    as (_ & Hres & _ & Hpos & _ & Hrule).
  split; [exact Hrule |]. split; [exact Hres | exact Hpos].
Defined.

(** The Restart Book button does not follow the priority rule: with a
    saved position at or beyond the loaded duration it is shown next to
    Resume. *)
Lemma restart_book_shown_next_to_resume :
  renders_Resume
    (exec (checkResume (respond 200 (Some (progressRecord 120 25 (JBool false)))))
       loaded100) = true
  /\ renders_RestartBook
       (exec (checkResume (respond 200 (Some (progressRecord 120 25 (JBool false)))))
          loaded100) = true.
Proof. split; vm_compute; reflexivity. Qed.

(** *** Timers across play and pause *)

Lemma handlePlay_detached c o :
  audioRef c = None -> handlePlay o c = (Normal tt, c).
Proof.
  intros Ha. unfold handlePlay. unfold_monad. rewrite Ha. reflexivity.
Qed.

Lemma handlePlay_started c a :
  audioRef c = Some a ->
  live (exec (handlePlay PlayStarts) c)
  = <[nextInterval (browser c) := 30000%Z]> (live c)
  /\ progressIntervalRef (exec (handlePlay PlayStarts) c)
     = Some (nextInterval (browser c))
  /\ is_Some (audioRef (exec (handlePlay PlayStarts) c))
  /\ isPlaying (st (exec (handlePlay PlayStarts) c)) = true.
Proof.
  intros Ha. unfold handlePlay, live. unfold_monad. rewrite Ha.
  unfold_prims. unfold_monad. rewrite Ha. simpl.
  repeat split. eexists; reflexivity.
Qed.

Lemma handlePause_timers c net :
  live (exec (handlePause net) c)
  = match audioRef c, progressIntervalRef c with
    | Some _, Some id => delete id (live c)
    | _, _ => live c
    end
  /\ progressIntervalRef (exec (handlePause net) c) = progressIntervalRef c
  /\ (is_Some (audioRef c) -> is_Some (audioRef (exec (handlePause net) c))).
Proof.
  unfold handlePause, live. unfold_monad.
  destruct (audioRef c) as [a |] eqn:Ha; [| simpl; rewrite Ha; repeat split; tauto].
  unfold_prims. unfold_monad. rewrite Ha.
  destruct (progressIntervalRef c) as [id |] eqn:Href; simpl;
    match goal with
    | |- context [updateProgress ?p ?s net ?c1] =>
        pose proof (updateProgress_frame c1 p s net) as [_ Hframe];
        unfold exec in Hframe;
        destruct (updateProgress p s net c1) as [r c2]
    end;
    destruct Hframe as (_ & _ & Haudio & Hr & Hlive & _);
    simpl in *; rewrite Haudio, Hr, Hlive; repeat split; eauto.
Qed.

Lemma pause_clears c net :
  only_ref_timer c -> live (exec (handlePause net) c) = ∅.
Proof.
  intros Hinv. destruct (handlePause_timers c net) as (Hlive & _ & _).
  rewrite Hlive. destruct Hinv as [Hempty | (id & ms & Hone & Href & [a Ha])].
  - rewrite Hempty.
    destruct (audioRef c), (progressIntervalRef c);
      first [reflexivity | apply delete_empty].
  - rewrite Ha, Href, Hone. apply delete_singleton_eq.
Qed.

Lemma play_from_no_timer c o :
  live c = ∅ ->
  timers_ok (DoPlay o, c, exec (handlePlay o) c)
  /\ only_ref_timer (exec (handlePlay o) c).
Proof.
  intros Hempty. unfold timers_ok.
  destruct (audioRef c) as [a |] eqn:Ha.
  - destruct o as [| e].
    + destruct (handlePlay_started c a Ha) as (Hlive & Href & Hsome & _).
      assert (Hone : live (exec (handlePlay PlayStarts) c)
                     = {[nextInterval (browser c) := 30000%Z]})
        by (rewrite Hlive, Hempty; apply insert_empty).
      split; [split |].
      * rewrite Hone, map_size_singleton. lia.
      * repeat split; assumption.
      * right. exists (nextInterval (browser c)), 30000%Z.
        repeat split; assumption.
    + unfold exec, live in *. rewrite (handlePlay_rejected c a e Ha). simpl.
      split; [split |].
      * rewrite Hempty, map_size_empty. lia.
      * reflexivity.
      * left. exact Hempty.
  - unfold exec. rewrite (handlePlay_detached c o Ha). simpl.
    split; [split |].
    + rewrite Hempty, map_size_empty. lia.
    + destruct o; reflexivity.
    + left. exact Hempty.
Qed.

Lemma alternating_trace ks :
  forall c,
    alternating ks = true ->
    only_ref_timer c ->
    match ks with DoPlay _ :: _ => live c = ∅ | _ => True end ->
    Forall timers_ok (trace ks c).
Proof.
  induction ks as [| k rest IH]; intros c Halt Hinv Hhead; [constructor |].
  cbn [trace]. destruct k as [o | net].
  - destruct (play_from_no_timer c o Hhead) as [Hok Hinv'].
    constructor; [exact Hok |].
    apply IH; [| exact Hinv' |].
    + destruct rest; [reflexivity |].
      cbn [alternating] in Halt. apply andb_true_iff in Halt. tauto.
    + destruct rest as [| [o' | net'] rest']; [exact I | | exact I].
      cbn [alternating is_play] in Halt. discriminate.
  - pose proof (pause_clears c net Hinv) as Hclear.
    constructor.
    + unfold timers_ok. cbn [run_call]. rewrite Hclear, map_size_empty.
      split; [lia | reflexivity].
    + apply IH.
      * destruct rest; [reflexivity |].
        cbn [alternating] in Halt. apply andb_true_iff in Halt. tauto.
      * left. exact Hclear.
      * destruct rest as [| [o' | net'] rest']; [exact I | exact Hclear | exact I].
Qed.

(** C4: along every alternating sequence of play and pause calls made on
    a player with no live timer, each pause leaves no timer live, each
    play that starts finds none and leaves exactly the one it created, a
    play that is rejected creates none, and so at most one timer is live
    after every call. *)
Theorem C4_alternating_play_pause_keeps_one_timer (ks : list Call) (c : Player) :
  alternating ks = true ->
  live c = ∅ ->
  Forall timers_ok (trace ks c).
Proof.
  intros Halt Hempty. apply alternating_trace.
  - exact Halt.
  - left. exact Hempty.
  - destruct ks as [| [o | net] rest]; [exact I | exact Hempty | exact I].
Qed.

Lemma C4_witness :
  Forall timers_ok
    (trace [DoPlay PlayStarts; DoPause offline; DoPlay (PlayRejects notAllowed);
            DoPause (respond 200 tt); DoPlay PlayStarts]
       loaded100).
Proof.
  apply C4_alternating_play_pause_keeps_one_timer; reflexivity.
Defined.

(** *** Unmounting *)

(** The cleanup clears the timer the ref names and touches no object
    URL. *)
Lemma cleanup_effect c :
  live (exec cleanup c)
  = match progressIntervalRef c with
    | Some id => delete id (live c)
    | None => live c
    end
  /\ objectUrls (browser (exec cleanup c)) = objectUrls (browser c)
  /\ revokeCalls (browser (exec cleanup c)) = revokeCalls (browser c).
Proof.
  unfold cleanup, live. unfold_monad.
  destruct (progressIntervalRef c); repeat split.
Qed.

(** C3 on its failing input: a signed-in player mounts, its audio is
    fetched and given an object URL, play starts, the player unmounts.
    The timer is stopped, but the object URL is still held and no revoke
    call was made. *)
Theorem C3_unmount_while_playing_leaks_object_url :
  intervals (playThenUnmount signedIn freshBrowser) = ∅
  /\ objectUrls (playThenUnmount signedIn freshBrowser) = {[1%positive]}
  /\ revokeCalls (playThenUnmount signedIn freshBrowser) = [].
Proof. repeat split; vm_compute; reflexivity. Qed.

(** One life of a signed-in player adds one object URL and revokes
    none. *)
Lemma playThenUnmount_effect p b :
  truthy_opt_string (authToken p) = true ->
  objectUrls (playThenUnmount p b) = {[nextObjectUrl b]} ∪ objectUrls b
  /\ nextObjectUrl (playThenUnmount p b) = Pos.succ (nextObjectUrl b)
  /\ revokeCalls (playThenUnmount p b) = revokeCalls b
  /\ intervals (playThenUnmount p b)
     = delete (nextInterval b) (<[nextInterval b := 30000%Z]> (intervals b)).
Proof.
  intros Htok. unfold playThenUnmount, initAudioSource, handlePlay, cleanup.
  unfold_monad. rewrite getStreamingUrl_truthy.
  unfold mountOn. cbn [audioRef props]. rewrite Htok.
  unfold_prims. unfold_monad. simpl. repeat split.
Qed.

(** The sibling path: a download creates an object URL and revokes it
    before it returns. *)
Lemma handleDownload_revokes_its_url c :
  truthy_opt_string (authToken (props c)) = true ->
  objectUrls (browser (exec (handleDownload (respond 200 tt)) c))
  = ({[nextObjectUrl (browser c)]} ∪ objectUrls (browser c))
      ∖ {[nextObjectUrl (browser c)]}
  /\ revokeCalls (browser (exec (handleDownload (respond 200 tt)) c))
     = (revokeCalls (browser c) ++ [nextObjectUrl (browser c)])%list.
Proof.
  intros Htok. unfold handleDownload. unfold_monad.
  rewrite Htok, getStreamingUrl_truthy.
  unfold_prims. unfold_monad. simpl. repeat split.
Qed.

(** Across repeated lives in one browser the object URLs pile up: after
    [n] of them [n] URLs are held and none was revoked. *)
Lemma repeated_lives_keep_every_url n :
  size (objectUrls (Nat.iter n (playThenUnmount signedIn) freshBrowser)) = n
  /\ revokeCalls (Nat.iter n (playThenUnmount signedIn) freshBrowser) = []
  /\ intervals (Nat.iter n (playThenUnmount signedIn) freshBrowser) = ∅
  /\ (forall h,
        h ∈ objectUrls (Nat.iter n (playThenUnmount signedIn) freshBrowser) ->
        (h < nextObjectUrl (Nat.iter n (playThenUnmount signedIn) freshBrowser))%positive).
Proof.
  induction n as [| n IH].
  - repeat split. intros h Hh. cbn in Hh. now apply not_elem_of_empty in Hh.
  - destruct IH as (Hsize & Hrev & Hint & Hfresh).
    rewrite Nat.iter_succ.
    set (b := Nat.iter n (playThenUnmount signedIn) freshBrowser) in *.
    destruct (playThenUnmount_effect signedIn b eq_refl) as (Hu & Hn & Hr & Hi).
    rewrite Hu, Hn, Hr, Hi. split; [| split; [exact Hrev | split]].
    + rewrite size_union.
      * rewrite size_singleton, Hsize. reflexivity.
      * apply disjoint_singleton_l. intros Hin. apply Hfresh in Hin. lia.
    + rewrite Hint, insert_empty. apply delete_singleton_eq.
    + intros h Hh. apply elem_of_union in Hh as [Hh | Hh].
      * apply elem_of_singleton in Hh. subst h. lia.
      * apply Hfresh in Hh. lia.
Qed.

(** *** The Resume action *)

(** C8: [handleResume] fetches the source with the resume flag, assigns
    it and stores a listener, and does not touch the element's position;
    the position is assigned when [loadedmetadata] fires afterwards, to
    the saved position held when Resume was pressed, and [play()] is
    called right after it. *)
Theorem C8_resume_assigns_position_after_metadata
    (c : Player) (a : Audio) (net : FetchOutcome unit) (d : Q)
    (o1 o2 : PlayOutcome) :
  audioRef c = Some a ->
  requests (browser (exec (handleResume net) c))
  = (requests (browser c)
     ++ (if truthy_opt_string (authToken (props c))
         then [resume_request c] else []))%list
  /\ List.filter assigns_position (mediaLog (browser (exec (handleResume net) c)))
     = List.filter assigns_position (mediaLog (browser c))
  /\ mediaLog (browser (exec (handleResume net) c))
     = (mediaLog (browser c)
        ++ (if resume_source_ready c net
            then [AssignSrc (resume_src c); AssignOnLoadedMetadata] else []))%list
  /\ (if resume_source_ready c net
      then
        mediaLog (browser (exec (loadedmetadata d o1 o2) (exec (handleResume net) c)))
        = (mediaLog (browser (exec (handleResume net) c))
           ++ [MetadataLoaded]
           ++ (if autoPlay (props c) then [CallPlay] else [])
           ++ resume_target c ++ [CallPlay])%list
      else
        error (st (exec (handleResume net) c)) = Some "Failed to resume audio.").
Proof.
  intros Ha.
  unfold resume_source_ready, resume_src, resume_request, resume_target.
  unfold handleResume, loadedmetadata, handleLoadedMetadata, run_listener,
    handlePlay.
  unfold_monad.
  destruct (truthy_opt_string (authToken (props c))) eqn:Htok.
  - unfold_prims. unfold_monad. cbn [requests browser with_browser put_requests].
    destruct net as [e | r]; cbn [ok].
    { simpl. rewrite ?Ha, ?app_nil_r. repeat split. }
    unfold ok. destruct ((200 <=? status r)%Z && (status r <=? 299)%Z); cbn [negb andb].
    2: { simpl. rewrite ?Ha, ?app_nil_r. repeat split. }
    destruct (body r) as [[] | e]; cbn [negb andb].
    2: { simpl. rewrite ?Ha, ?app_nil_r. repeat split. }
    simpl. rewrite Ha. simpl.
    destruct (autoPlay (props c)), o1, o2, (resumePosition (st c)) as [p |];
      simpl; try destruct (Qeq_bool p 0); simpl;
      repeat split; rewrite ?List.filter_app; simpl;
      rewrite <- ?app_assoc, ?app_nil_r; reflexivity.
  - unfold_prims. unfold_monad. simpl. rewrite Ha. simpl.
    destruct (autoPlay (props c)), o1, o2, (resumePosition (st c)) as [p |];
      simpl; try destruct (Qeq_bool p 0); simpl;
      rewrite ?app_nil_r; repeat split; rewrite ?List.filter_app; simpl;
      rewrite <- ?app_assoc, ?app_nil_r; reflexivity.
Qed.

Lemma C8_witness :
  mediaLog (browser (exec (loadedmetadata 300 PlayStarts PlayStarts)
                       (exec (handleResume (respond 200 tt)) resumable100)))
  = (mediaLog (browser (exec (handleResume (respond 200 tt)) resumable100))
     ++ [MetadataLoaded; AssignCurrentTime 120; CallPlay])%list
  /\ List.filter assigns_position
       (mediaLog (browser (exec (handleResume (respond 200 tt)) resumable100)))
     = List.filter assigns_position (mediaLog (browser resumable100)).
Proof.
  destruct (C8_resume_assigns_position_after_metadata resumable100
              (put_media_duration 100 (put_src (SrcObjectUrl 1) freshAudio))
              (respond 200 tt) 300 PlayStarts PlayStarts eq_refl)
    as (_ & Hpos & _ & Hlog).
  split; [exact Hlog | exact Hpos].
Defined.

End PlayerProofs.

(** * Properties of the auth context *)

Module AuthProofs.

Import AuthContext.
Local Open Scope js_scope.

(** What a failed validation leaves: the state of a logout, with loading
    over and the one request sent. *)
Lemma validateToken_failed api token net a :
  failed net = true ->
  validateToken api token net a
  = (Normal tt,
     {| authToken := None; user := None; isLoading := false;
        localStorage := delete tokenKey (localStorage a);
        requests := requests a
                    ++ [{| req_method := "GET"; req_url := userMeUrl api;
                           req_bearer := Some token; req_body := None |}] |}).
Proof.
  intros Hfail. unfold validateToken, logout, fetch, read_body, setAuthToken,
    setUser, setIsLoading, localStorage_removeItem.
  unfold try_finally, try_catch, bind, ret, throw, modify.
  destruct net as [e | r]; simpl in *.
  - reflexivity.
  - apply negb_true_iff in Hfail. rewrite Hfail. reflexivity.
Qed.

(** C9: when token validation does not get a 2xx response (the fetch
    rejects or the status is outside 200-299) the provider logs out: the
    stored token is removed from [localStorage], [authToken] and [user]
    are [null], loading is over and the app shows the login view. *)
Theorem C9_failed_validation_logs_out
    (api token : string) (net : FetchOutcome UserData) (a : Auth) :
  failed net = true ->
  completion (validateToken api token net) a = Normal tt
  /\ localStorage (exec (validateToken api token net) a)
     = delete tokenKey (localStorage a)
  /\ localStorage (exec (validateToken api token net) a) !! tokenKey = None
  /\ authToken (exec (validateToken api token net) a) = None
  /\ user (exec (validateToken api token net) a) = None
  /\ isLoading (exec (validateToken api token net) a) = false
  /\ AppContent (exec (validateToken api token net) a) = LoginView.
Proof.
  intros Hfail. unfold exec, completion.
  rewrite (validateToken_failed api token net a Hfail). simpl.
  repeat split. apply lookup_delete_eq.
Qed.

(** The same on the path the app takes: a token found in storage at
    mount and refused by the server. *)
Lemma stored_token_refused_at_mount api token storage net :
  storage !! tokenKey = Some token ->
  truthy_string token = true ->
  failed net = true ->
  localStorage (exec (checkExistingToken api net) (initial storage)) !! tokenKey
  = None
  /\ authToken (exec (checkExistingToken api net) (initial storage)) = None
  /\ AppContent (exec (checkExistingToken api net) (initial storage)) = LoginView.
Proof.
  intros Hstored Htruthy Hfail.
  assert (Hrun : exec (checkExistingToken api net) (initial storage)
                 = exec (validateToken api token net)
                     {| authToken := Some token; user := None; isLoading := true;
                        localStorage := storage; requests := [] |}).
  { unfold checkExistingToken, exec, bind, get, setAuthToken, modify,
      fire_and_forget.
    cbn [initial localStorage]. rewrite Hstored, Htruthy. reflexivity. }
  rewrite Hrun. unfold exec.
  rewrite (validateToken_failed api token net _ Hfail). simpl.
  repeat split. apply lookup_delete_eq.
Qed.

Lemma C9_witness :
  localStorage
    (exec (validateToken "http://localhost:10000" "stale"
             (Statements.respond 401 {| name := None; email := None |}))
       {| authToken := Some "stale"; user := None; isLoading := true;
          localStorage := {[ tokenKey := "stale" ]}; requests := [] |})
  !! tokenKey = None
  /\ AppContent
       (exec (validateToken "http://localhost:10000" "stale"
                (Statements.respond 401 {| name := None; email := None |}))
          {| authToken := Some "stale"; user := None; isLoading := true;
             localStorage := {[ tokenKey := "stale" ]}; requests := [] |})
     = LoginView.
Proof.
  destruct (C9_failed_validation_logs_out "http://localhost:10000" "stale"
              (Statements.respond 401 {| name := None; email := None |})
              {| authToken := Some "stale"; user := None; isLoading := true;
                 localStorage := {[ tokenKey := "stale" ]}; requests := [] |}
              eq_refl)
    as (_ & _ & Hgone & _ & _ & _ & Hview).
  split; [exact Hgone | exact Hview].
Defined.

End AuthProofs.

(** * The position a seek ends on *)

Module SeekProofs.

Import AudioPlayer Statements PlayerEvents.
Local Open Scope js_scope.





End SeekProofs.

(** * Properties of formatting, media events and the other controls *)

Module PlayerEventsProofs.

Import AudioPlayer Statements PlayerEvents.
Local Open Scope js_scope.

Ltac unfold_monad :=
  unfold exec, completion, fire_and_forget, try_catch, try_finally, bind, ret,
    throw, get, modify in *.

Ltac unfold_prims :=
  unfold fetch, read_body, assign_src, assign_currentTime,
    assign_onloadedmetadata, media_pause, media_play, on_audio, setInterval,
    clearInterval, createObjectURL, revokeObjectURL, setIsPlaying,
    setIsLoading, setDuration, setCurrentTime, setError, setResumeAvailable,
    setResumePosition, setShowStartOver, setCompletionPercentage in *.

(** *** Floors *)

Lemma Qfloor_unique (x : Q) (z : Z) :
  (inject_Z z <= x)%Q -> (x < inject_Z (z + 1))%Q -> Qfloor x = z.
Proof.
  intros Hlo Hhi.
  assert (H1 : (z <= Qfloor x)%Z).
  { rewrite <- (Qfloor_Z z). apply Qfloor_resp_le. exact Hlo. }
  assert (H2 : (Qfloor x < z + 1)%Z).
  { rewrite Zlt_Qlt. apply Qle_lt_trans with x; [apply Qfloor_le | exact Hhi]. }
  lia.
Qed.

Lemma Qfloor_bounds (x : Q) :
  (inject_Z (Qfloor x) <= x)%Q /\ (x < inject_Z (Qfloor x) + 1)%Q.
Proof.
  split; [apply Qfloor_le |].
  pose proof (Qlt_floor x) as H. rewrite inject_Z_plus in H. exact H.
Qed.

Lemma Qtrunc_nonneg (x : Q) : (0 <= x)%Q -> Qtrunc x = Qfloor x.
Proof.
  intros H. unfold Qtrunc.
  destruct (Qle_bool 0 x) eqn:E; [reflexivity |].
  apply Qle_bool_iff in H. congruence.
Qed.

(** For a time that is not negative, [seconds] is what is left of the
    whole seconds after the whole minutes. *)
Lemma seconds_of_nonneg_time (time : Q) :
  (0 <= time)%Q ->
  seconds time = (Qfloor time - 60 * minutes time)%Z.
Proof.
  intros Hpos. unfold seconds, minutes, js_rem.
  assert (Hq : (time == 60 * (time / 60))%Q) by field.
  set (q := (time / 60)%Q) in *.
  assert (Hdiv : (0 <= q)%Q) by lra.
  rewrite (Qtrunc_nonneg _ Hdiv).
  destruct (Qfloor_bounds q) as [Hm1 Hm2].
  destruct (Qfloor_bounds time) as [Hf1 Hf2].
  set (m := Qfloor q) in *. set (f := Qfloor time) in *.
  apply Qfloor_unique; unfold Z.sub;
    rewrite ?inject_Z_plus, ?inject_Z_opp, ?inject_Z_mult;
    change (inject_Z 60) with 60%Q; change (inject_Z 1) with 1%Q; lra.
Qed.

Lemma minutes_bounds (time : Q) :
  (60 * minutes time <= Qfloor time < 60 * minutes time + 60)%Z.
Proof.
  unfold minutes.
  assert (Hq : (time == 60 * (time / 60))%Q) by field.
  set (q := (time / 60)%Q) in *.
  destruct (Qfloor_bounds q) as [Hm1 Hm2].
  destruct (Qfloor_bounds time) as [Hf1 Hf2].
  set (m := Qfloor q) in *. set (f := Qfloor time) in *.
  split.
  - rewrite Zle_Qle, inject_Z_mult. change (inject_Z 60) with 60%Q.
    apply Qle_trans with (inject_Z (Qfloor (inject_Z (60 * m)))).
    + rewrite Qfloor_Z, inject_Z_mult. change (inject_Z 60) with 60%Q. lra.
    + rewrite <- Zle_Qle. apply Qfloor_resp_le.
      rewrite inject_Z_mult. change (inject_Z 60) with 60%Q. lra.
  - rewrite Zlt_Qlt, inject_Z_plus, inject_Z_mult.
    change (inject_Z 60) with 60%Q. lra.
Qed.

Lemma two_digit_seconds (s : Z) :
  (0 <= s < 60)%Z -> String.length (padStart 2 "0"%char (pretty s)) = 2.
Proof.
  intros Hs.
  assert (Hall : forallb
                   (fun n => Nat.eqb (String.length
                                        (padStart 2 "0"%char (pretty (Z.of_nat n)))) 2)
                   (seq 0 60) = true) by (vm_compute; reflexivity).
  rewrite forallb_forall in Hall.
  specialize (Hall (Z.to_nat s)).
  rewrite Z2Nat.id in Hall by lia.
  apply Nat.eqb_eq, Hall, in_seq. lia.
Qed.

(** The split of a time that is not negative into whole minutes and
    the seconds left over. *)
Lemma whole_seconds_split (time : Q) :
  (0 <= time)%Q ->
  (0 <= minutes time)%Z
  /\ (0 <= seconds time < 60)%Z
  /\ (60 * minutes time + seconds time)%Z = Qfloor time.
Proof.
  intros Hpos.
  pose proof (seconds_of_nonneg_time time Hpos) as Hs.
  pose proof (minutes_bounds time) as Hm.
  assert (Hf : (0 <= Qfloor time)%Z).
  { rewrite <- (Qfloor_Z 0). apply Qfloor_resp_le. exact Hpos. }
  lia.
Qed.

(** X1. [formatTime] on a finite time from 0 up to 2^53, the range in
    which the code's numbers hold every whole second: the minutes are not
    negative and stay below 2^53 / 60, so they print in decimal; the
    seconds are between 0 and 59 and are printed on exactly two
    characters; together they are the whole seconds of the time.  A
    duration that is not finite is not split: [Infinity] prints as
    Infinity:NaN and [NaN] as NaN:NaN. *)
Theorem formatTime_splits_finite_times (time : Q) :
  (0 <= time)%Q ->
  (time < 9007199254740992)%Q ->
  (0 <= minutes time < 150119987579017)%Z
  /\ (0 <= seconds time < 60)%Z
  /\ (60 * minutes time + seconds time)%Z = Qfloor time
  /\ formatTime_number (Finite time)
     = pretty (minutes time) ++ ":" ++ padStart 2 "0"%char (pretty (seconds time))
  /\ formatTime_number (Finite time) = formatTime time
  /\ String.length (padStart 2 "0"%char (pretty (seconds time))) = 2
  /\ formatTime_number PlusInfinity = "Infinity:NaN"
  /\ formatTime_number MinusInfinity = "-Infinity:NaN"
  /\ formatTime_number NotANumber = "NaN:NaN".
Proof.
  intros Hpos Hbound.
  destruct (whole_seconds_split time Hpos) as (Hmin & Hsec & Hsum).
  assert (Hf : (Qfloor time < 9007199254740992)%Z).
  { rewrite Zlt_Qlt. apply Qle_lt_trans with time; [apply Qfloor_le | exact Hbound]. }
  split; [lia |]. split; [exact Hsec |]. split; [exact Hsum |].
  split; [reflexivity |]. split; [reflexivity |].
  split; [apply two_digit_seconds; exact Hsec |].
  repeat split.
Qed.

Lemma formatTime_splits_finite_times_witness :
  (60 * minutes (1257 # 10) + seconds (1257 # 10))%Z = 125%Z
  /\ formatTime_number (Finite (1257 # 10)) = "2:05"
  /\ formatTime_number (Finite 3599) = "59:59"
  /\ formatTime_number PlusInfinity = "Infinity:NaN".
Proof.
  assert (Hpos : (0 <= 1257 # 10)%Q) by (vm_compute; discriminate).
  assert (Hbound : (1257 # 10 < 9007199254740992)%Q) by (vm_compute; reflexivity).
  assert (Hpos' : (0 <= 3599)%Q) by (vm_compute; discriminate).
  assert (Hbound' : (3599 < 9007199254740992)%Q) by (vm_compute; reflexivity).
  destruct (formatTime_splits_finite_times (1257 # 10) Hpos Hbound)
    as (_ & _ & Hsum & Htext & _ & _ & Hinf & _).
  destruct (formatTime_splits_finite_times 3599 Hpos' Hbound')
    as (_ & _ & _ & Htext' & _).
  split; [exact Hsum |]. split; [exact Htext |].
  split; [exact Htext' | exact Hinf].
Defined.

(** *** The progress bar *)

(** The percentage of a position within the duration. *)
Lemma percentage_bounds (c : Player) :
  (0 <= currentTime (st c))%Q ->
  (currentTime (st c) <= duration (st c))%Q ->
  (0 <= getProgressPercentage c)%Q /\ (getProgressPercentage c <= 100)%Q.
Proof.
  intros H0 H1. unfold getProgressPercentage, Qlt_bool.
  destruct (Qle_bool (duration (st c)) 0) eqn:Hd; cbn [negb].
  - split; lra.
  - assert (Hpos : (0 < duration (st c))%Q).
    { apply Qnot_le_lt. intros Hle. apply Qle_bool_iff in Hle. congruence. }
    assert (Hlo : (0 <= currentTime (st c) / duration (st c))%Q)
      by (apply Qle_shift_div_l; [exact Hpos | lra]).
    assert (Hhi : (currentTime (st c) / duration (st c) <= 1)%Q)
      by (apply Qle_shift_div_r; [exact Hpos | lra]).
    set (q := (currentTime (st c) / duration (st c))%Q) in *.
    split; lra.
Qed.

(** X2. While the position is within the duration the percentage
    [getProgressPercentage] returns is within 0 and 100; a duration of 0
    gives 0 and no division. *)
Theorem progress_percentage_in_range (c : Player) :
  (0 <= currentTime (st c))%Q ->
  (currentTime (st c) <= duration (st c))%Q ->
  (0 <= getProgressPercentage c)%Q
  /\ (getProgressPercentage c <= 100)%Q
  /\ (duration (st c) == 0 -> getProgressPercentage c = 0)%Q.
Proof.
  intros H0 H1. unfold getProgressPercentage, Qlt_bool.
  destruct (Qle_bool (duration (st c)) 0) eqn:Hd; cbn [negb].
  - repeat split; lra.
  - assert (Hpos : (0 < duration (st c))%Q).
    { apply Qnot_le_lt. intros Hle. apply Qle_bool_iff in Hle. congruence. }
    assert (Hlo : (0 <= currentTime (st c) / duration (st c))%Q)
      by (apply Qle_shift_div_l; [exact Hpos | lra]).
    assert (Hhi : (currentTime (st c) / duration (st c) <= 1)%Q)
      by (apply Qle_shift_div_r; [exact Hpos | lra]).
    set (q := (currentTime (st c) / duration (st c))%Q) in *.
    split; [lra |]. split; [lra |]. intros Hz. lra.
Qed.

Lemma progress_percentage_in_range_witness :
  (0 <= getProgressPercentage (exec (handleSeek 25 offline) loaded100))%Q
  /\ (getProgressPercentage (exec (handleSeek 25 offline) loaded100) <= 100)%Q.
Proof.
  assert (H0 : (0 <= currentTime (st (exec (handleSeek 25 offline) loaded100)))%Q)
    by (vm_compute; discriminate).
  assert (H1 : (currentTime (st (exec (handleSeek 25 offline) loaded100))
                <= duration (st (exec (handleSeek 25 offline) loaded100)))%Q)
    by (vm_compute; discriminate).
  destruct (progress_percentage_in_range
              (exec (handleSeek 25 offline) loaded100) H0 H1) as (Hlo & Hhi & _).
  split; [exact Hlo | exact Hhi].
Defined.

(** X3. A click on the progress bar at offset [clickX] of a bar of
    width [width], with [0 <= clickX <= width] and a finite duration
    above 0, seeks to a target within the duration: the position it
    leaves is between 0 and the duration, and the bar then shows between
    0 and 100 percent; a click at the left edge seeks to 0. *)
Theorem progress_bar_click_seeks_within_duration
    (c : Player) (a : Audio) (clickX width : Q) (net : FetchOutcome unit) :
  audioRef c = Some a ->
  (0 < duration (st c))%Q ->
  (0 < width)%Q ->
  (0 <= clickX)%Q -> (clickX <= width)%Q ->
  (0 <= currentTime (st (exec (progressBarClick clickX width net) c)))%Q
  /\ (currentTime (st (exec (progressBarClick clickX width net) c))
      <= duration (st c))%Q
  /\ (0 <= getProgressPercentage (exec (progressBarClick clickX width net) c))%Q
  /\ (getProgressPercentage (exec (progressBarClick clickX width net) c) <= 100)%Q
  /\ (clickX == 0 ->
      currentTime (st (exec (progressBarClick clickX width net) c)) == 0)%Q.
Proof.
  intros Ha Hd Hw H0 H1.
  assert (Hrun : exec (progressBarClick clickX width net) c
                 = exec (handleSeek (clickX / width * duration (st c)) net) c)
    by reflexivity.
  destruct (PlayerProofs.handleSeek_position c
              (clickX / width * duration (st c))%Q net) as (Hcur & Hdur & _).
  rewrite Ha in Hcur.
  assert (Hlo : (0 <= clickX / width)%Q)
    by (apply Qle_shift_div_l; [exact Hw | lra]).
  assert (Hhi : (clickX / width <= 1)%Q)
    by (apply Qle_shift_div_r; [exact Hw | lra]).
  assert (Hpos0 : (0 <= currentTime (st (exec (progressBarClick clickX width net) c)))%Q).
  { rewrite Hrun, Hcur. apply Qmult_le_0_compat; lra. }
  assert (Hpos1 : (currentTime (st (exec (progressBarClick clickX width net) c))
                   <= duration (st (exec (progressBarClick clickX width net) c)))%Q).
  { rewrite Hrun, Hcur, Hdur.
    rewrite <- (Qmult_1_l (duration (st c))) at 2.
    apply Qmult_le_compat_r; lra. }
  destruct (percentage_bounds
              (exec (progressBarClick clickX width net) c) Hpos0 Hpos1)
    as (Hp0 & Hp1).
  split; [exact Hpos0 |].
  split; [rewrite Hrun, Hdur in Hpos1; rewrite Hrun; exact Hpos1 |].
  split; [exact Hp0 |]. split; [exact Hp1 |].
  intros Hz. rewrite Hrun, Hcur.
  assert (Hq : (clickX / width == 0)%Q) by (rewrite Hz; field; lra).
  rewrite Hq. ring.
Qed.

Lemma progress_bar_click_seeks_within_duration_witness :
  (0 <= currentTime (st (exec (progressBarClick 60 240 offline) loaded100)))%Q
  /\ (currentTime (st (exec (progressBarClick 60 240 offline) loaded100))
      <= duration (st loaded100))%Q
  /\ (getProgressPercentage (exec (progressBarClick 60 240 offline) loaded100)
      <= 100)%Q.
Proof.
  assert (Hd : (0 < duration (st loaded100))%Q) by (vm_compute; reflexivity).
  assert (Hw : (0 < 240)%Q) by (vm_compute; reflexivity).
  assert (H0 : (0 <= 60)%Q) by (vm_compute; discriminate).
  assert (H1 : (60 <= 240)%Q) by (vm_compute; discriminate).
  destruct (progress_bar_click_seeks_within_duration loaded100
              (put_media_duration 100 (put_src (SrcObjectUrl 1) freshAudio))
              60 240 offline eq_refl Hd Hw H0 H1) as (Hlo & Hhi & _ & Hpct & _).
  split; [exact Hlo | split; [exact Hhi | exact Hpct]].
Defined.

(** *** Ended, errors and the play button *)

(** What [handleEnded] does: [isPlaying] goes to false and one push
    tagged completed is made; the timers, the ref and the element are not
    touched. *)
Lemma handleEnded_effect c net :
  completion (handleEnded net) c = Normal tt
  /\ st (exec (handleEnded net) c) = put_isPlaying false (st c)
  /\ audioRef (exec (handleEnded net) c) = audioRef c
  /\ progressIntervalRef (exec (handleEnded net) c) = progressIntervalRef c
  /\ live (exec (handleEnded net) c) = live c
  /\ nextInterval (browser (exec (handleEnded net) c)) = nextInterval (browser c)
  /\ requests (browser (exec (handleEnded net) c))
     = (requests (browser c)
        ++ (if truthy_opt_string (authToken (props c))
            then [progressRequest c (duration (st c)) "completed"] else []))%list.
Proof.
  unfold handleEnded, live. unfold_monad. unfold_prims. unfold_monad.
  match goal with
  | |- context [updateProgress ?p ?s net ?c1] =>
      pose proof (PlayerProofs.updateProgress_frame c1 p s net) as [_ Hframe];
      pose proof (PlayerProofs.updateProgress_requests c1 p s net) as Hreq;
      unfold exec in Hframe, Hreq;
      destruct (updateProgress p s net c1) as [r c2]
  end.
  destruct Hframe as (_ & Hst & Haudio & Href & Hlive & Hnext & _).
  simpl in *. repeat split; assumption.
Qed.

Lemma handlePlay_started_next c a :
  audioRef c = Some a ->
  nextInterval (browser (exec (handlePlay PlayStarts) c))
  = Pos.succ (nextInterval (browser c)).
Proof.
  intros Ha. unfold handlePlay. unfold_monad. rewrite Ha.
  unfold_prims. unfold_monad. rewrite Ha. reflexivity.
Qed.

(** X4. The end of the audio stops nothing: [handleEnded] leaves the
    progress timer live, so play, end of audio, play again leaves two
    live timers, of which the cleanup on unmount clears only the newer
    one. *)
Theorem ended_then_play_leaves_two_timers
    (c : Player) (a : Audio) (net : FetchOutcome unit) :
  audioRef c = Some a ->
  live c = ∅ ->
  isPlaying (st (exec (handleEnded net) (exec (handlePlay PlayStarts) c))) = false
  /\ live (exec (handleEnded net) (exec (handlePlay PlayStarts) c))
     = {[nextInterval (browser c) := 30000%Z]}
  /\ size (live (exec (handlePlay PlayStarts)
                   (exec (handleEnded net) (exec (handlePlay PlayStarts) c)))) = 2
  /\ live (exec cleanup
             (exec (handlePlay PlayStarts)
                (exec (handleEnded net) (exec (handlePlay PlayStarts) c))))
     = {[nextInterval (browser c) := 30000%Z]}.
Proof.
  intros Ha Hempty.
  destruct (PlayerProofs.handlePlay_started c a Ha) as (Hl1 & Hr1 & [a1 Ha1] & _).
  pose proof (handlePlay_started_next c a Ha) as Hn1.
  set (c1 := exec (handlePlay PlayStarts) c) in *.
  destruct (handleEnded_effect c1 net) as (_ & Hst2 & Ha2 & Hr2 & Hl2 & Hn2 & _).
  set (c2 := exec (handleEnded net) c1) in *.
  rewrite Ha1 in Ha2.
  destruct (PlayerProofs.handlePlay_started c2 a1 Ha2) as (Hl3 & Hr3 & _ & _).
  set (c3 := exec (handlePlay PlayStarts) c2) in *.
  destruct (PlayerProofs.cleanup_effect c3) as (Hl4 & _ & _).
  rewrite Hr3 in Hl4. rewrite Hl4, Hl3, Hn2, Hn1, Hl2, Hl1, Hempty, Hst2.
  rewrite insert_empty.
  set (n := nextInterval (browser c)).
  assert (Hne : n <> Pos.succ n) by lia.
  split; [reflexivity |]. split; [reflexivity |]. split.
  - rewrite map_size_insert_None, map_size_singleton; [reflexivity |].
    apply lookup_singleton_ne. exact Hne.
  - rewrite delete_insert_eq. apply delete_id.
    apply lookup_singleton_ne. exact Hne.
Qed.

Lemma ended_then_play_leaves_two_timers_witness :
  size (live (exec (handlePlay PlayStarts)
                (exec (handleEnded offline) (exec (handlePlay PlayStarts) loaded100))))
  = 2
  /\ live (exec cleanup
             (exec (handlePlay PlayStarts)
                (exec (handleEnded offline) (exec (handlePlay PlayStarts) loaded100))))
     = {[1%positive := 30000%Z]}.
Proof.
  destruct (ended_then_play_leaves_two_timers loaded100
              (put_media_duration 100 (put_src (SrcObjectUrl 1) freshAudio))
              offline eq_refl eq_refl) as (_ & _ & Htwo & Hleft).
  split; [exact Htwo | exact Hleft].
Defined.

Lemma userFriendlyError_truthy e : truthy_string (userFriendlyError e) = true.
Proof.
  unfold userFriendlyError.
  destruct (String.eqb (err_name e) "NotAllowedError"); [reflexivity |].
  destruct (String.eqb (err_name e) "NotSupportedError"); reflexivity.
Qed.

Lemma on_signal_keeps_error c s :
  truthy_opt_string (error (st c)) = true ->
  truthy_opt_string (error (st (exec (on_signal s) c))) = true.
Proof.
  intros Herr. destruct s as [| | | net |]; cbn [on_signal].
  - exact Herr.
  - exact Herr.
  - unfold handleTimeUpdate. unfold_monad. destruct (audioRef c); exact Herr.
  - destruct (handleEnded_effect c net) as (_ & Hst & _). rewrite Hst. exact Herr.
  - reflexivity.
Qed.

Lemma on_signals_keep_error signals :
  forall c,
    truthy_opt_string (error (st c)) = true ->
    truthy_opt_string (error (st (on_signals signals c))) = true.
Proof.
  induction signals as [| s rest IH]; intros c Herr; [exact Herr |].
  cbn [on_signals fold_left]. apply IH, on_signal_keeps_error, Herr.
Qed.

(** X5. Once [handlePlay] was rejected, or the element raised an error,
    the play/pause button is disabled, and no later loadstart, canplay,
    timeupdate, ended or error event enables it again. *)
Theorem error_disables_play_button
    (c : Player) (a : Audio) (e : JsError) (signals : list Signal) :
  audioRef c = Some a ->
  playButtonDisabled (on_signals signals (exec (handlePlay (PlayRejects e)) c)) = true
  /\ playButtonDisabled (on_signals signals (exec handleError c)) = true.
Proof.
  intros Ha. unfold playButtonDisabled. split.
  - rewrite on_signals_keep_error; [apply orb_true_r |].
    unfold exec. rewrite (PlayerProofs.handlePlay_rejected c a e Ha).
    cbn. apply userFriendlyError_truthy.
  - rewrite on_signals_keep_error; [apply orb_true_r | reflexivity].
Qed.

Lemma error_disables_play_button_witness :
  playButtonDisabled
    (on_signals [CanPlay; TimeUpdate; Ended offline]
       (exec (handlePlay (PlayRejects notAllowed)) loaded100)) = true.
Proof.
  destruct (error_disables_play_button loaded100
              (put_media_duration 100 (put_src (SrcObjectUrl 1) freshAudio))
              notAllowed [CanPlay; TimeUpdate; Ended offline] eq_refl) as [H _].
  exact H.
Defined.

(** *** Start over and resume *)

(** X6. A click on Start Over Again (or Restart Book) assigns position 0
    and calls [play()]; whether or not [play()] is rejected, [isPlaying]
    becomes true, no error is shown and no progress timer is started. *)
Theorem start_over_reports_playing_whatever_play_does
    (c : Player) (a : Audio) (o : PlayOutcome) :
  audioRef c = Some a ->
  completion (clickStartOver o) c = Normal tt
  /\ isPlaying (st (exec (clickStartOver o) c)) = true
  /\ error (st (exec (clickStartOver o) c)) = error (st c)
  /\ live (exec (clickStartOver o) c) = live c
  /\ mediaLog (browser (exec (clickStartOver o) c))
     = (mediaLog (browser c) ++ [AssignCurrentTime 0; CallPlay])%list
  /\ option_map paused (audioRef (exec (clickStartOver o) c))
     = Some (match o with PlayStarts => false | PlayRejects _ => paused a end).
Proof.
  intros Ha. unfold clickStartOver, live. unfold_monad. rewrite Ha.
  unfold_prims. unfold_monad. rewrite Ha.
  destruct o; simpl; rewrite <- ?app_assoc; repeat split.
Qed.

Lemma start_over_reports_playing_whatever_play_does_witness :
  isPlaying (st (exec (clickStartOver (PlayRejects notAllowed)) loaded100)) = true
  /\ error (st (exec (clickStartOver (PlayRejects notAllowed)) loaded100)) = None
  /\ option_map paused
       (audioRef (exec (clickStartOver (PlayRejects notAllowed)) loaded100))
     = Some true.
Proof.
  destruct (start_over_reports_playing_whatever_play_does loaded100
              (put_media_duration 100 (put_src (SrcObjectUrl 1) freshAudio))
              (PlayRejects notAllowed) eq_refl)
    as (_ & Hplaying & Herr & _ & _ & Hpaused).
  split; [exact Hplaying |]. split; [exact Herr | exact Hpaused].
Defined.

(** X7. A Resume that gets its source marks the player as playing but
    starts no progress timer, neither in [handleResume] nor when the
    metadata arrives (autoPlay off); with a token it creates one more
    object URL and revokes none. *)
Theorem resume_starts_no_timer
    (c : Player) (a : Audio) (net : FetchOutcome unit) (d : Q)
    (o1 o2 : PlayOutcome) :
  audioRef c = Some a ->
  autoPlay (props c) = false ->
  resume_source_ready c net = true ->
  isPlaying (st (exec (loadedmetadata d o1 o2) (exec (handleResume net) c))) = true
  /\ live (exec (handleResume net) c) = live c
  /\ live (exec (loadedmetadata d o1 o2) (exec (handleResume net) c)) = live c
  /\ progressIntervalRef (exec (loadedmetadata d o1 o2) (exec (handleResume net) c))
     = progressIntervalRef c
  /\ objectUrls (browser (exec (loadedmetadata d o1 o2) (exec (handleResume net) c)))
     = (if truthy_opt_string (authToken (props c))
        then {[nextObjectUrl (browser c)]} ∪ objectUrls (browser c)
        else objectUrls (browser c))
  /\ revokeCalls (browser (exec (loadedmetadata d o1 o2) (exec (handleResume net) c)))
     = revokeCalls (browser c).
Proof.
  intros Ha Hauto Hready. unfold resume_source_ready in Hready.
  unfold handleResume, loadedmetadata, handleLoadedMetadata, run_listener, live.
  unfold_monad.
  destruct (truthy_opt_string (authToken (props c))) eqn:Htok.
  - unfold_prims. unfold_monad.
    destruct net as [e | r]; [discriminate |].
    apply andb_true_iff in Hready as [Hok Hbody]. rewrite Hok. cbn [negb].
    destruct (body r) as [[] | e]; [| discriminate].
    simpl. rewrite Ha. simpl. rewrite Hauto.
    destruct o2, (resumePosition (st c)) as [p |]; simpl;
      try destruct (Qeq_bool p 0); simpl; repeat split.
  - unfold_prims. unfold_monad. simpl. rewrite Ha. simpl. rewrite Hauto.
    destruct o2, (resumePosition (st c)) as [p |]; simpl;
      try destruct (Qeq_bool p 0); simpl; repeat split.
Qed.

Lemma resume_starts_no_timer_witness :
  isPlaying (st (exec (loadedmetadata 300 PlayStarts PlayStarts)
                   (exec (handleResume (respond 200 tt)) resumable100))) = true
  /\ live (exec (loadedmetadata 300 PlayStarts PlayStarts)
             (exec (handleResume (respond 200 tt)) resumable100)) = ∅
  /\ objectUrls (browser (exec (loadedmetadata 300 PlayStarts PlayStarts)
                            (exec (handleResume (respond 200 tt)) resumable100)))
     = {[2%positive]} ∪ {[1%positive]}.
Proof.
  destruct (resume_starts_no_timer resumable100
              (put_media_duration 100 (put_src (SrcObjectUrl 1) freshAudio))
              (respond 200 tt) 300 PlayStarts PlayStarts eq_refl eq_refl eq_refl)
    as (Hplaying & _ & Hlive & _ & Hurls & _).
  split; [exact Hplaying |]. split; [exact Hlive | exact Hurls].
Defined.

(** *** The audio source at mount *)

(** X8. Without a token the source effect hands the streaming URL
    itself to the element: no request is sent, no object URL is created,
    loading is over and no error is shown. *)
Theorem source_without_token_is_the_streaming_url (c : Player) (a : Audio) :
  audioRef c = Some a ->
  truthy_opt_string (authToken (props c)) = false ->
  option_map src (audioRef (exec (initAudioSource offline) c))
  = Some (Some (SrcUrl (getStreamingUrl c)))
  /\ requests (browser (exec (initAudioSource offline) c)) = requests (browser c)
  /\ objectUrls (browser (exec (initAudioSource offline) c))
     = objectUrls (browser c)
  /\ isLoading (st (exec (initAudioSource offline) c)) = false
  /\ error (st (exec (initAudioSource offline) c)) = None
  /\ (forall net, initAudioSource net c = initAudioSource offline c).
Proof.
  intros Ha Htok.
  assert (Hany : forall net,
             initAudioSource net c
             = (Normal tt,
                with_st (put_isLoading false)
                  (with_browser
                     (fun b => put_mediaLog
                                 (mediaLog b ++ [AssignSrc (SrcUrl (getStreamingUrl c))]) b)
                     (with_audioRef
                        (fun _ => Some (put_src (SrcUrl (getStreamingUrl c)) a))
                        (with_st (put_error None) (with_st (put_isLoading true) c)))))).
  { intros net. unfold initAudioSource. unfold_monad.
    rewrite Ha, PlayerProofs.getStreamingUrl_truthy.
    unfold_prims. unfold_monad. cbn [props with_st]. rewrite Htok.
    cbn [audioRef with_st]. rewrite Ha. reflexivity. }
  assert (Hsame : forall net, initAudioSource net c = initAudioSource offline c)
    by (intros net; rewrite (Hany net), (Hany offline); reflexivity).
  split; [| split; [| split; [| split; [| split; [| exact Hsame]]]]];
    unfold exec; rewrite (Hany offline); reflexivity.
Qed.

Lemma source_without_token_is_the_streaming_url_witness :
  option_map src (audioRef (exec (initAudioSource offline) (mounted anonymous)))
  = Some (Some (SrcUrl "http://localhost:10000/audioStreaming/books/2/audio?resume=true"))
  /\ requests (browser (exec (initAudioSource offline) (mounted anonymous))) = [].
Proof.
  destruct (source_without_token_is_the_streaming_url (mounted anonymous)
              freshAudio eq_refl eq_refl) as (Hsrc & Hreq & _).
  split; [exact Hsrc | exact Hreq].
Defined.

(** X9. With a token, when the audio cannot be fetched (the fetch
    rejects, the status is not 2xx or the blob cannot be read) the source
    effect shows its error message and ends loading; the element gets no
    source, no object URL is created, one request was sent, and the
    play button is disabled. *)
Theorem source_fetch_failure_is_reported
    (c : Player) (a : Audio) (net : FetchOutcome unit) :
  audioRef c = Some a ->
  truthy_opt_string (authToken (props c)) = true ->
  resume_source_ready c net = false ->
  completion (initAudioSource net) c = Normal tt
  /\ error (st (exec (initAudioSource net) c))
     = Some "Failed to load audio. Please check your connection."
  /\ isLoading (st (exec (initAudioSource net) c)) = false
  /\ audioRef (exec (initAudioSource net) c) = audioRef c
  /\ objectUrls (browser (exec (initAudioSource net) c)) = objectUrls (browser c)
  /\ length (requests (browser (exec (initAudioSource net) c)))
     = S (length (requests (browser c)))
  /\ playButtonDisabled (exec (initAudioSource net) c) = true.
Proof.
  intros Ha Htok Hnot. unfold resume_source_ready in Hnot. rewrite Htok in Hnot.
  unfold initAudioSource, playButtonDisabled. unfold_monad.
  rewrite Ha, PlayerProofs.getStreamingUrl_truthy.
  unfold_prims. unfold_monad. cbn [props with_st]. rewrite Htok.
  destruct net as [e | r].
  - simpl. rewrite length_app, Nat.add_comm. repeat split; assumption.
  - destruct (ok r) eqn:Hok; cbn [negb].
    + destruct (body r) as [[] | e]; [discriminate |].
      simpl. rewrite length_app, Nat.add_comm. repeat split; assumption.
    + simpl. rewrite length_app, Nat.add_comm. repeat split; assumption.
Qed.

Lemma source_fetch_failure_is_reported_witness :
  error (st (exec (initAudioSource (respond 403 tt)) (mounted signedIn)))
  = Some "Failed to load audio. Please check your connection."
  /\ playButtonDisabled (exec (initAudioSource (respond 403 tt)) (mounted signedIn))
     = true.
Proof.
  destruct (source_fetch_failure_is_reported (mounted signedIn) freshAudio
              (respond 403 tt) eq_refl eq_refl eq_refl)
    as (_ & Herr & _ & _ & _ & _ & Hbtn).
  split; [exact Herr | exact Hbtn].
Defined.

(** *** Fetching the saved progress *)

(** X10. When the progress fetch rejects, or its 2xx body cannot be
    read, [checkResume] withdraws every offer: Resume, Restart Book and
    Start Over Again are hidden whatever was shown before, and the
    completion percentage is 0. *)
Theorem progress_fetch_error_hides_all_buttons
    (c : Player) (net : FetchOutcome (option ProgressRecord)) :
  truthy_opt_string (authToken (props c)) = true ->
  match net with
  | NetworkError _ => True
  | Responded r => ok r = true /\ exists e, body r = Throw e
  end ->
  completion (checkResume net) c = Normal tt
  /\ renders_Resume (exec (checkResume net) c) = false
  /\ renders_RestartBook (exec (checkResume net) c) = false
  /\ renders_StartOverAgain (exec (checkResume net) c) = false
  /\ completionPercentage (st (exec (checkResume net) c)) = 0%Q.
Proof.
  intros Htok Hnet.
  unfold checkResume, renders_Resume, renders_RestartBook, renders_StartOverAgain.
  unfold_monad. rewrite Htok, PlayerProofs.getProgressUrl_truthy. cbn [negb orb].
  unfold_prims. unfold_monad.
  destruct net as [e | r].
  - cbn. rewrite andb_false_r. repeat split.
  - destruct Hnet as [Hok [e Hbody]]. cbn. rewrite Hok, Hbody. cbn.
    rewrite andb_false_r. repeat split.
Qed.

Lemma progress_fetch_error_hides_all_buttons_witness :
  renders_Resume (exec (checkResume offline) resumable100) = false
  /\ renders_RestartBook (exec (checkResume offline) resumable100) = false.
Proof.
  destruct (progress_fetch_error_hides_all_buttons resumable100 offline
              eq_refl I) as (_ & Hres & Hrestart & _).
  split; [exact Hres | exact Hrestart].
Defined.

(** X11. A progress response that is not 2xx, or a 2xx body without a
    progress object, changes no state cell: the buttons shown before stay
    as they were. *)
Theorem progress_response_without_record_changes_nothing
    (c : Player) (r : Response (option ProgressRecord)) :
  ok r = false \/ body r = Normal None ->
  completion (checkResume (Responded r)) c = Normal tt
  /\ st (exec (checkResume (Responded r)) c) = st c
  /\ renders_Resume (exec (checkResume (Responded r)) c) = renders_Resume c
  /\ renders_RestartBook (exec (checkResume (Responded r)) c)
     = renders_RestartBook c
  /\ renders_StartOverAgain (exec (checkResume (Responded r)) c)
     = renders_StartOverAgain c.
Proof.
  intros Hr.
  assert (Hst : completion (checkResume (Responded r)) c = Normal tt
                /\ st (exec (checkResume (Responded r)) c) = st c).
  { unfold checkResume. unfold_monad.
    rewrite PlayerProofs.getProgressUrl_truthy. cbn [negb orb].
    destruct (truthy_opt_string (authToken (props c))); cbn [negb];
      [| split; reflexivity].
    unfold_prims. unfold_monad. cbn.
    destruct (ok r) eqn:Hok.
    - destruct Hr as [Hr | Hr]; [discriminate |]. rewrite Hr. split; reflexivity.
    - split; reflexivity. }
  destruct Hst as [Hdone Hst].
  unfold renders_Resume, renders_RestartBook, renders_StartOverAgain.
  rewrite Hst. repeat split. exact Hdone.
Qed.

Lemma progress_response_without_record_changes_nothing_witness :
  renders_Resume
    (exec (checkResume (Responded {| status := 500; body := Normal None |}))
       resumable100) = true.
Proof.
  destruct (progress_response_without_record_changes_nothing resumable100
              {| status := 500; body := Normal None |} (or_introl eq_refl))
    as (_ & _ & Hres & _).
  rewrite Hres. reflexivity.
Defined.

(** *** Download and bookmark *)

(** X12. A download leaves no object URL behind, whatever the network
    does: with a token and a blob that arrives one URL is created,
    clicked and revoked; when the blob does not arrive the download error
    is shown and nothing is clicked; without a token the streaming URL
    itself is clicked and no request is sent.  The player's own element
    is not touched. *)
Theorem download_leaves_no_object_url (c : Player) (net : FetchOutcome unit) :
  nextObjectUrl (browser c) ∉ objectUrls (browser c) ->
  completion (handleDownload net) c = Normal tt
  /\ objectUrls (browser (exec (handleDownload net) c)) = objectUrls (browser c)
  /\ downloads (browser (exec (handleDownload net) c))
     = (downloads (browser c)
        ++ (if truthy_opt_string (authToken (props c))
            then (if blob_arrives net
                  then [SrcObjectUrl (nextObjectUrl (browser c))] else [])
            else [SrcUrl (getStreamingUrl c)]))%list
  /\ revokeCalls (browser (exec (handleDownload net) c))
     = (revokeCalls (browser c)
        ++ (if truthy_opt_string (authToken (props c)) && blob_arrives net
            then [nextObjectUrl (browser c)] else []))%list
  /\ error (st (exec (handleDownload net) c))
     = (if truthy_opt_string (authToken (props c)) && negb (blob_arrives net)
        then Some "Download failed. Please try again." else error (st c))
  /\ length (requests (browser (exec (handleDownload net) c)))
     = (length (requests (browser c))
        + (if truthy_opt_string (authToken (props c)) then 1 else 0))%nat
  /\ audioRef (exec (handleDownload net) c) = audioRef c.
Proof.
  intros Hfresh. unfold handleDownload, blob_arrives. unfold_monad.
  rewrite PlayerProofs.getStreamingUrl_truthy.
  destruct (truthy_opt_string (authToken (props c))).
  - unfold_prims. unfold_monad. cbn [andb].
    destruct net as [e | r].
    + cbn. rewrite !app_nil_r, length_app. repeat split.
    + destruct (ok r); cbn [negb andb].
      * destruct (body r) as [[] | e]; cbn.
        -- rewrite length_app. repeat split.
           apply set_eq. intros x.
           rewrite elem_of_difference, elem_of_union, elem_of_singleton. split.
           ++ intros [[Hx | Hx] Hne]; [contradiction | exact Hx].
           ++ intros Hx. split; [right; exact Hx |]. intros ->. contradiction.
        -- rewrite !app_nil_r, length_app. repeat split.
      * cbn. rewrite !app_nil_r, length_app. repeat split.
  - cbn. rewrite app_nil_r, Nat.add_0_r. repeat split.
Qed.

Lemma download_leaves_no_object_url_witness :
  objectUrls (browser (exec (handleDownload (respond 200 tt)) loaded100))
  = objectUrls (browser loaded100)
  /\ revokeCalls (browser (exec (handleDownload (respond 200 tt)) loaded100))
     = [2%positive].
Proof.
  assert (Hfresh : nextObjectUrl (browser loaded100) ∉ objectUrls (browser loaded100))
    by (apply (bool_decide_eq_true_1
                 (nextObjectUrl (browser loaded100) ∉ objectUrls (browser loaded100)));
        vm_compute; reflexivity).
  destruct (download_leaves_no_object_url loaded100 (respond 200 tt) Hfresh)
    as (_ & Hurls & _ & Hrev & _).
  split; [exact Hurls | exact Hrev].
Defined.

(** X13. A bookmark on a position that is not negative: the time shown
    in the alert and the position pushed to the server are the same whole
    seconds (minutes times 60 plus seconds of the text is the pushed
    position), one request tagged bookmarked is sent, and no state cell
    changes. *)
Theorem bookmark_alert_matches_pushed_position
    (c : Player) (net : FetchOutcome unit) :
  (0 <= currentTime (st c))%Q ->
  truthy_opt_string (authToken (props c)) = true ->
  completion (handleBookmark net) c
  = Normal ("Bookmarked at "
            ++ pretty (minutes (currentTime (st c))) ++ ":"
            ++ padStart 2 "0"%char (pretty (seconds (currentTime (st c)))))
  /\ requests (browser (exec (handleBookmark net) c))
     = (requests (browser c)
        ++ [{| req_method := "POST"; req_url := getProgressUrl c;
               req_bearer := authToken (props c);
               req_body :=
                 Some ((60 * minutes (currentTime (st c))
                        + seconds (currentTime (st c)))%Z,
                       "bookmarked", playbackRate (st c)) |}])%list
  /\ st (exec (handleBookmark net) c) = st c.
Proof.
  intros Hpos Htok.
  destruct (whole_seconds_split (currentTime (st c)) Hpos)
    as (_ & _ & Hsum).
  unfold handleBookmark. unfold_monad.
  pose proof (PlayerProofs.updateProgress_frame c (currentTime (st c))
                "bookmarked" net) as [_ Hframe].
  pose proof (PlayerProofs.updateProgress_requests c (currentTime (st c))
                "bookmarked" net) as Hreq.
  unfold exec in Hframe, Hreq.
  destruct (updateProgress (currentTime (st c)) "bookmarked" net c) as [r c2].
  destruct Hframe as (_ & Hst & _).
  cbn [fst snd] in *. rewrite Htok in Hreq. unfold progressRequest in Hreq.
  rewrite Hsum. split; [reflexivity |]. split; [exact Hreq | exact Hst].
Qed.

Lemma bookmark_alert_matches_pushed_position_witness :
  completion (handleBookmark offline) (exec (handleSeek (1257 # 10) offline) loaded100)
  = Normal "Bookmarked at 2:05".
Proof.
  assert (Hpos : (0 <= currentTime
                         (st (exec (handleSeek (1257 # 10) offline) loaded100)))%Q)
    by (vm_compute; discriminate).
  destruct (bookmark_alert_matches_pushed_position
              (exec (handleSeek (1257 # 10) offline) loaded100) offline Hpos eq_refl)
    as (Halert & _).
  exact Halert.
Defined.

End PlayerEventsProofs.

(** * More properties of the auth context *)

Module AuthSessionProofs.

Import AuthContext.
Local Open Scope js_scope.

Ltac unfold_auth :=
  unfold validateToken, checkExistingToken, login, logout, fetch, read_body,
    setAuthToken, setUser, setIsLoading, localStorage_setItem,
    localStorage_removeItem, exec, completion, fire_and_forget, try_finally,
    try_catch, bind, ret, throw, get, modify in *.

(** X14. [login] stores the token under the token key and [logout]
    removes it again: after login and logout the storage is the one
    before without that key, and neither touches any other key. *)
Theorem login_logout_touch_only_the_token_key
    (a : Auth) (token : string) (u : UserData) :
  localStorage (exec (login token u) a) !! tokenKey = Some token
  /\ authToken (exec (login token u) a) = Some token
  /\ user (exec (login token u) a) = Some u
  /\ localStorage (exec logout (exec (login token u) a))
     = delete tokenKey (localStorage a)
  /\ authToken (exec logout (exec (login token u) a)) = None
  /\ user (exec logout (exec (login token u) a)) = None
  /\ (forall k, k <> tokenKey ->
        localStorage (exec (login token u) a) !! k = localStorage a !! k
        /\ localStorage (exec logout a) !! k = localStorage a !! k).
Proof.
  unfold_auth. cbn. repeat split.
  - apply lookup_insert_eq.
  - apply delete_insert_eq.
  - apply lookup_insert_ne. congruence.
  - apply lookup_delete_ne. congruence.
Qed.

(** X15. A validation answered 2xx with a readable profile keeps the
    session: the profile becomes [user], the token in state and in
    storage stays, loading is over, and with a token that is not empty
    the app shows the player. *)
Theorem accepted_token_keeps_the_session
    (api token : string) (r : Response UserData) (u : UserData) (a : Auth) :
  ok r = true ->
  body r = Normal u ->
  completion (validateToken api token (Responded r)) a = Normal tt
  /\ user (exec (validateToken api token (Responded r)) a) = Some u
  /\ authToken (exec (validateToken api token (Responded r)) a) = authToken a
  /\ localStorage (exec (validateToken api token (Responded r)) a) = localStorage a
  /\ isLoading (exec (validateToken api token (Responded r)) a) = false
  /\ AppContent (exec (validateToken api token (Responded r)) a)
     = (if truthy_opt_string (authToken a) then PlayerView else LoginView).
Proof.
  intros Hok Hbody. unfold AppContent, isAuthenticated. unfold_auth.
  cbn. rewrite Hok, Hbody. cbn.
  destruct (truthy_opt_string (authToken a)); repeat split.
Qed.

Lemma accepted_token_keeps_the_session_witness :
  AppContent
    (exec (validateToken "http://localhost:10000" "jwt"
             (Statements.respond 200 {| name := Some "Ada"; email := None |}))
       {| authToken := Some "jwt"; user := None; isLoading := true;
          localStorage := {[ tokenKey := "jwt" ]}; requests := [] |})
  = PlayerView.
Proof.
  destruct (accepted_token_keeps_the_session "http://localhost:10000" "jwt"
              {| status := 200; body := Normal {| name := Some "Ada"; email := None |} |}
              {| name := Some "Ada"; email := None |}
              {| authToken := Some "jwt"; user := None; isLoading := true;
                 localStorage := {[ tokenKey := "jwt" ]}; requests := [] |}
              eq_refl eq_refl)
    as (_ & _ & _ & _ & _ & Hview).
  exact Hview.
Defined.

(** X16. A 2xx validation response whose body cannot be read as JSON
    logs the user out like a refusal: the token is removed from storage,
    [authToken] and [user] are [null] and the login view is shown. *)
Theorem unreadable_profile_logs_out
    (api token : string) (r : Response UserData) (e : JsError) (a : Auth) :
  ok r = true ->
  body r = Throw e ->
  completion (validateToken api token (Responded r)) a = Normal tt
  /\ localStorage (exec (validateToken api token (Responded r)) a) !! tokenKey = None
  /\ authToken (exec (validateToken api token (Responded r)) a) = None
  /\ user (exec (validateToken api token (Responded r)) a) = None
  /\ AppContent (exec (validateToken api token (Responded r)) a) = LoginView.
Proof.
  intros Hok Hbody. unfold AppContent, isAuthenticated. unfold_auth.
  cbn. rewrite Hok, Hbody. cbn. repeat split. apply lookup_delete_eq.
Qed.

Lemma unreadable_profile_logs_out_witness :
  AppContent
    (exec (validateToken "http://localhost:10000" "jwt"
             (Responded {| status := 200;
                           body := Throw {| err_name := "SyntaxError";
                                            err_message := "Unexpected token" |} |}))
       {| authToken := Some "jwt"; user := None; isLoading := true;
          localStorage := {[ tokenKey := "jwt" ]}; requests := [] |})
  = LoginView.
Proof.
  destruct (unreadable_profile_logs_out "http://localhost:10000" "jwt"
              {| status := 200;
                 body := Throw {| err_name := "SyntaxError";
                                  err_message := "Unexpected token" |} |}
              {| err_name := "SyntaxError"; err_message := "Unexpected token" |}
              {| authToken := Some "jwt"; user := None; isLoading := true;
                 localStorage := {[ tokenKey := "jwt" ]}; requests := [] |}
              eq_refl eq_refl)
    as (_ & _ & _ & _ & Hview).
  exact Hview.
Defined.

(** X17. At mount, when storage holds no token, or an empty one, no
    validation request is sent: loading ends at once, nothing else
    changes and the login view is shown. *)
Theorem no_stored_token_shows_login_without_request
    (api : string) (storage : gmap string string) (net : FetchOutcome UserData) :
  storage !! tokenKey = None \/ storage !! tokenKey = Some "" ->
  exec (checkExistingToken api net) (initial storage)
  = {| authToken := None; user := None; isLoading := false;
       localStorage := storage; requests := [] |}
  /\ AppContent (exec (checkExistingToken api net) (initial storage)) = LoginView.
Proof.
  intros Hnone. unfold AppContent, isAuthenticated. unfold_auth. cbn.
  destruct Hnone as [H | H]; rewrite H; cbn; split; reflexivity.
Qed.

Lemma no_stored_token_shows_login_without_request_witness :
  AppContent (exec (checkExistingToken "http://localhost:10000" Statements.offline)
                (initial ∅)) = LoginView.
Proof.
  destruct (no_stored_token_shows_login_without_request "http://localhost:10000"
              ∅ Statements.offline (or_introl (lookup_empty tokenKey)))
    as (_ & Hview).
  exact Hview.
Defined.

(** X18. A session survives a reload: after [login] with a token that
    is not empty, a new mount over the storage left behind, whose
    validation is answered 2xx with a profile, is authenticated with the
    same token and shows the player; after [logout] the next mount shows
    the login view and sends no request. *)
Theorem session_survives_reload_until_logout
    (api token : string) (u u' : UserData) (a : Auth) (r : Response UserData)
    (net : FetchOutcome UserData) :
  truthy_string token = true ->
  ok r = true ->
  body r = Normal u' ->
  authToken (exec (checkExistingToken api (Responded r))
               (initial (localStorage (exec (login token u) a)))) = Some token
  /\ user (exec (checkExistingToken api (Responded r))
             (initial (localStorage (exec (login token u) a)))) = Some u'
  /\ AppContent (exec (checkExistingToken api (Responded r))
                   (initial (localStorage (exec (login token u) a)))) = PlayerView
  /\ AppContent (exec (checkExistingToken api net)
                   (initial (localStorage (exec logout (exec (login token u) a)))))
     = LoginView
  /\ requests (exec (checkExistingToken api net)
                 (initial (localStorage (exec logout (exec (login token u) a)))))
     = [].
Proof.
  intros Htruthy Hok Hbody.
  destruct (login_logout_touch_only_the_token_key a token u)
    as (Hstored & _ & _ & Hout & _).
  assert (Hgone : localStorage (exec logout (exec (login token u) a)) !! tokenKey
                  = None) by (rewrite Hout; apply lookup_delete_eq).
  destruct (no_stored_token_shows_login_without_request api
              (localStorage (exec logout (exec (login token u) a))) net
              (or_introl Hgone)) as (Hstate & Hview).
  set (storage := localStorage (exec (login token u) a)) in *.
  assert (Hrun : exec (checkExistingToken api (Responded r)) (initial storage)
                 = {| authToken := Some token; user := Some u'; isLoading := false;
                      localStorage := storage;
                      requests := [{| req_method := "GET"; req_url := userMeUrl api;
                                      req_bearer := Some token; req_body := None |}] |}).
  { unfold checkExistingToken, exec, bind, get, setAuthToken, modify,
      fire_and_forget.
    cbn [initial localStorage]. rewrite Hstored, Htruthy.
    unfold validateToken, fetch, read_body, setUser, setIsLoading, try_finally,
      try_catch, bind, ret, modify. cbn. rewrite Hok, Hbody. reflexivity. }
  rewrite Hrun, Hstate. unfold AppContent, isAuthenticated. cbn. rewrite Htruthy.
  repeat split.
Qed.

Lemma session_survives_reload_until_logout_witness :
  AppContent
    (exec (checkExistingToken "http://localhost:10000"
             (Statements.respond 200 {| name := Some "Ada"; email := None |}))
       (initial (localStorage
                   (exec (login "jwt" {| name := None; email := None |}) (initial ∅)))))
  = PlayerView.
Proof.
  destruct (session_survives_reload_until_logout "http://localhost:10000" "jwt"
              {| name := None; email := None |} {| name := Some "Ada"; email := None |}
              (initial ∅)
              {| status := 200; body := Normal {| name := Some "Ada"; email := None |} |}
              Statements.offline eq_refl eq_refl eq_refl)
    as (_ & _ & Hview & _).
  exact Hview.
Defined.

End AuthSessionProofs.

(** * Properties of the login form *)

Module LoginProofs.

Import Login.
Local Open Scope js_scope.

Ltac unfold_login :=
  unfold handleSubmit, post_login, read_json, in_auth, setIsLoading, setError,
    AuthContext.login, AuthContext.localStorage_setItem, AuthContext.setAuthToken,
    AuthContext.setUser, exec, completion, try_finally, try_catch, bind, ret,
    throw, get, modify in *.

(** X19. A login answered 2xx with a token that is not empty signs the
    user in: the token is in storage under the token key and in
    [authToken], the form shows no error and is not loading, one request
    with the typed credentials was posted, and an app that showed the
    login view now shows the player. *)
Theorem granted_login_signs_in
    (api statusText : string) (net : FetchOutcome LoginData) (t : string) (f : Form) :
  grants_token net = Some t ->
  AuthContext.isLoading (auth f) = false ->
  completion (handleSubmit api statusText net) f = Normal tt
  /\ AuthContext.localStorage (auth (exec (handleSubmit api statusText net) f))
     !! AuthContext.tokenKey = Some t
  /\ AuthContext.authToken (auth (exec (handleSubmit api statusText net) f)) = Some t
  /\ error (exec (handleSubmit api statusText net) f) = None
  /\ isLoading (exec (handleSubmit api statusText net) f) = false
  /\ posted (exec (handleSubmit api statusText net) f)
     = (posted f ++ [((api ++ "/user/login")%string, credentials f)])%list
  /\ AuthContext.AppContent (auth (exec (handleSubmit api statusText net) f))
     = AuthContext.PlayerView.
Proof.
  intros Hgrant Hidle. unfold grants_token in Hgrant.
  destruct net as [e | r]; [discriminate |].
  destruct (ok r) eqn:Hok; [| discriminate].
  destruct (body r) as [data | e] eqn:Hbody; [| discriminate].
  destruct (token data) as [t' |] eqn:Htoken; [| discriminate].
  destruct (truthy_string t') eqn:Htruthy; [| discriminate].
  injection Hgrant as ->.
  unfold AuthContext.AppContent, AuthContext.isAuthenticated. unfold_login.
  cbn. rewrite Hbody. cbn. rewrite Hok. cbn. rewrite Htoken, Htruthy. cbn.
  rewrite Hidle, Htruthy. cbn. repeat split. apply lookup_insert_eq.
Qed.

Lemma granted_login_signs_in_witness :
  AuthContext.AppContent
    (auth (exec (handleSubmit "http://localhost:10000" "OK"
                   (Statements.respond 200
                      {| message := None; token := Some "jwt";
                         name := Some "Ada"; user_email := None |}))
             {| credentials := {| email := "ada@example.org"; password := "pw" |};
                isLoading := false; error := None; posted := [];
                auth := {| AuthContext.authToken := None; AuthContext.user := None;
                           AuthContext.isLoading := false;
                           AuthContext.localStorage := ∅;
                           AuthContext.requests := [] |} |}))
  = AuthContext.PlayerView.
Proof.
  destruct (granted_login_signs_in "http://localhost:10000" "OK"
              (Statements.respond 200
                 {| message := None; token := Some "jwt";
                    name := Some "Ada"; user_email := None |})
              "jwt"
              {| credentials := {| email := "ada@example.org"; password := "pw" |};
                 isLoading := false; error := None; posted := [];
                 auth := {| AuthContext.authToken := None; AuthContext.user := None;
                            AuthContext.isLoading := false;
                            AuthContext.localStorage := ∅;
                            AuthContext.requests := [] |} |}
              eq_refl eq_refl)
    as (_ & _ & _ & _ & _ & _ & Hview).
  exact Hview.
Defined.

(** X20. Every other answer signs nobody in: the provider, its storage
    included, is untouched, the form is not loading, and the error shown
    is the message of the rejection, or of the body that could not be
    read (also when the status is not 2xx: the body is read before the
    status is looked at), or the server's message, or the status line, or
    the missing-token message. *)
Theorem refused_login_changes_no_session
    (api statusText : string) (net : FetchOutcome LoginData) (f : Form) :
  grants_token net = None ->
  completion (handleSubmit api statusText net) f = Normal tt
  /\ auth (exec (handleSubmit api statusText net) f) = auth f
  /\ isLoading (exec (handleSubmit api statusText net) f) = false
  /\ posted (exec (handleSubmit api statusText net) f)
     = (posted f ++ [((api ++ "/user/login")%string, credentials f)])%list
  /\ error (exec (handleSubmit api statusText net) f)
     = Some (match net with
             | NetworkError e => err_message e
             | Responded r =>
                 match body r with
                 | Throw e => err_message e
                 | Normal data =>
                     if ok r then "No token received from server"
                     else match message data with
                          | Some m =>
                              if truthy_string m then m
                              else "Login failed: " ++ pretty (status r)
                                   ++ " " ++ statusText
                          | None => "Login failed: " ++ pretty (status r)
                                    ++ " " ++ statusText
                          end
                 end
             end).
Proof.
  intros Hgrant. unfold grants_token in Hgrant. unfold_login.
  destruct net as [e | r]; cbn.
  - destruct f as [cr l er po [at_ us il ls rq]]; cbn. repeat split.
  - destruct (body r) as [data | e] eqn:Hbody; cbn.
    + destruct (ok r) eqn:Hok; cbn.
      * destruct (token data) as [t' |] eqn:Htoken; cbn.
        -- destruct (truthy_string t'); [discriminate |]. cbn.
           destruct f as [cr l er po [at_ us il ls rq]]; cbn. repeat split.
        -- destruct f as [cr l er po [at_ us il ls rq]]; cbn. repeat split.
      * destruct f as [cr l er po [at_ us il ls rq]]; cbn. repeat split.
    + destruct f as [cr l er po [at_ us il ls rq]]; cbn. repeat split.
Qed.

Lemma refused_login_changes_no_session_witness :
  error (exec (handleSubmit "http://localhost:10000" "Bad Gateway"
                 (Responded {| status := 502;
                               body := Throw {| err_name := "SyntaxError";
                                                err_message := "Unexpected token <" |} |}))
           {| credentials := {| email := "ada@example.org"; password := "pw" |};
              isLoading := false; error := None; posted := [];
              auth := AuthContext.initial ∅ |})
  = Some "Unexpected token <".
Proof.
  destruct (refused_login_changes_no_session "http://localhost:10000" "Bad Gateway"
              (Responded {| status := 502;
                            body := Throw {| err_name := "SyntaxError";
                                             err_message := "Unexpected token <" |} |})
              {| credentials := {| email := "ada@example.org"; password := "pw" |};
                 isLoading := false; error := None; posted := [];
                 auth := AuthContext.initial ∅ |}
              eq_refl)
    as (_ & _ & _ & _ & Herr).
  exact Herr.
Defined.

End LoginProofs.

(** * Properties of the session logger *)

Module SessionLoggerProofs.

Import SessionLogger.
Local Open Scope list_scope.

Lemma slice_last_snoc_full {A} (l : list A) (x : A) :
  length l = 1000 -> slice_last 500 (l ++ [x]) = drop 501 l ++ [x].
Proof.
  intros Hlen. unfold slice_last. rewrite length_app, Hlen. cbn [length].
  change (1000 + 1 - 500) with 501.
  rewrite drop_app_le by lia. reflexivity.
Qed.

(** What [log] leaves in the buffer when it held at most 1000
    entries. *)
Lemma log_buffer lg lvl cat msg dat now1 now2 :
  length (sessionLogs lg) <= 1000 ->
  sessionLogs (log lvl cat msg dat now1 now2 lg)
  = (if (length (sessionLogs lg) <? 1000)%nat
     then sessionLogs lg ++ [logEntry lg lvl cat msg dat now1 now2]
     else drop 501 (sessionLogs lg) ++ [logEntry lg lvl cat msg dat now1 now2])%list.
Proof.
  intros Hlen. unfold log. cbn [sessionLogs]. rewrite length_app. cbn [length].
  destruct (length (sessionLogs lg) <? 1000)%nat eqn:Hlt.
  - apply Nat.ltb_lt in Hlt.
    replace (1000 <? length (sessionLogs lg) + 1)%nat with false
      by (symmetry; apply Nat.ltb_ge; lia).
    reflexivity.
  - apply Nat.ltb_ge in Hlt.
    replace (1000 <? length (sessionLogs lg) + 1)%nat with true
      by (symmetry; apply Nat.ltb_lt; lia).
    apply slice_last_snoc_full. lia.
Qed.

(** X21. [log] keeps the buffer within 1000 entries: the new entry is
    always the last one; below 1000 entries nothing is dropped, and at
    1000 the oldest 501 are dropped so that 500 remain. *)
Theorem log_keeps_buffer_bounded
    (lg : AudioPlayerLogger) (lvl : Level) (cat msg dat : string) (now1 now2 : Z) :
  length (sessionLogs lg) <= 1000 ->
  length (sessionLogs (log lvl cat msg dat now1 now2 lg)) <= 1000
  /\ last (sessionLogs (log lvl cat msg dat now1 now2 lg))
     = Some (logEntry lg lvl cat msg dat now1 now2)
  /\ sessionLogs (log lvl cat msg dat now1 now2 lg)
     = (if (length (sessionLogs lg) <? 1000)%nat
        then sessionLogs lg ++ [logEntry lg lvl cat msg dat now1 now2]
        else drop 501 (sessionLogs lg) ++ [logEntry lg lvl cat msg dat now1 now2])%list
  /\ length (sessionLogs (log lvl cat msg dat now1 now2 lg))
     = (if (length (sessionLogs lg) <? 1000)%nat
        then S (length (sessionLogs lg)) else 500).
Proof.
  intros Hlen. rewrite (log_buffer lg lvl cat msg dat now1 now2 Hlen).
  destruct (length (sessionLogs lg) <? 1000)%nat eqn:Hlt.
  - apply Nat.ltb_lt in Hlt. rewrite last_snoc, length_app. cbn [length].
    repeat split; lia.
  - apply Nat.ltb_ge in Hlt.
    rewrite last_snoc, length_app, length_drop. cbn [length].
    repeat split; lia.
Qed.

Lemma log_keeps_buffer_bounded_witness :
  length (sessionLogs fullLogger) = 1000
  /\ length (sessionLogs (log info "PLAYBACK" "play" "{}" 5 6 fullLogger)) = 500
  /\ last (sessionLogs (log info "PLAYBACK" "play" "{}" 5 6 fullLogger))
     = Some {| timestamp := 5; entry_sessionId := "audio-1"; level := info;
               category := "PLAYBACK"; message := "play"; data := "{}";
               sessionTime := 6 |}
  /\ sessionLogs (log info "PLAYBACK" "play" "{}" 5 6 fullLogger)
     = drop 501 (sessionLogs fullLogger)
       ++ [logEntry fullLogger info "PLAYBACK" "play" "{}" 5 6]
  /\ length (sessionLogs (log info "INIT" "started" "{}" 5 6 (constructor "audio-1" 0)))
     = 1.
Proof.
  assert (Hfull : length (sessionLogs fullLogger) = 1000)
    by (vm_compute; reflexivity).
  assert (Hlen : length (sessionLogs fullLogger) <= 1000)
    by (rewrite Hfull; lia).
  assert (Hnew : length (sessionLogs (constructor "audio-1" 0)) <= 1000)
    by (cbn; lia).
  destruct (log_keeps_buffer_bounded fullLogger info "PLAYBACK" "play" "{}" 5 6 Hlen)
    as (_ & Hlast & Hlogs & Hcount).
  destruct (log_keeps_buffer_bounded (constructor "audio-1" 0) info "INIT"
              "started" "{}" 5 6 Hnew) as (_ & _ & _ & Hone).
  split; [exact Hfull |].
  split.
  { transitivity (if (length (sessionLogs fullLogger) <? 1000)%nat
                  then S (length (sessionLogs fullLogger)) else 500);
      [exact Hcount | vm_compute; reflexivity]. }
  split.
  { transitivity (Some (logEntry fullLogger info "PLAYBACK" "play" "{}" 5 6));
      [exact Hlast | vm_compute; reflexivity]. }
  split; [| exact Hone].
  transitivity (if (length (sessionLogs fullLogger) <? 1000)%nat
                then sessionLogs fullLogger
                     ++ [logEntry fullLogger info "PLAYBACK" "play" "{}" 5 6]
                else drop 501 (sessionLogs fullLogger)
                     ++ [logEntry fullLogger info "PLAYBACK" "play" "{}" 5 6]);
    [exact Hlogs | vm_compute; reflexivity].
Defined.

Lemma log_calls_snoc ks k lg :
  log_calls (ks ++ [k]) lg = log_call k (log_calls ks lg).
Proof. unfold log_calls. rewrite fold_left_app. reflexivity. Qed.

Lemma log_calls_keep_identity ks lg :
  sessionId (log_calls ks lg) = sessionId lg
  /\ sessionStartTime (log_calls ks lg) = sessionStartTime lg
  /\ performanceMetrics (log_calls ks lg) = performanceMetrics lg.
Proof.
  induction ks as [| k ks IH] using rev_ind; [repeat split |].
  rewrite log_calls_snoc. unfold log_call, log. cbn. exact IH.
Qed.

(** X22. Over any run of [log] calls on a new logger the buffer holds
    the most recent entries, in order: it is a suffix of everything that
    was logged, never longer than 1000, never shorter than the last 500,
    and complete as long as at most 1000 entries were logged. *)
Theorem session_logs_are_the_latest_entries
    (ks : list LogCall) (id : string) (now : Z) :
  sessionLogs (log_calls ks (constructor id now))
    `suffix_of` map (entry_of (constructor id now)) ks
  /\ length (sessionLogs (log_calls ks (constructor id now))) <= 1000
  /\ Nat.min (length ks) 500 <= length (sessionLogs (log_calls ks (constructor id now)))
  /\ (if (length ks <=? 1000)%nat
      then sessionLogs (log_calls ks (constructor id now))
           = map (entry_of (constructor id now)) ks
      else True).
Proof.
  set (lg0 := constructor id now).
  induction ks as [| k ks IH] using rev_ind.
  - cbn. repeat split; [apply suffix_nil | lia | lia].
  - destruct IH as (Hsuf & Hle & Hmin & Hfull).
    destruct (log_calls_keep_identity ks lg0) as (Hid & Hstart & _).
    rewrite log_calls_snoc, map_app, length_app. cbn [map length].
    assert (Hentry : logEntry (log_calls ks lg0) (call_level k) (call_category k)
                       (call_message k) (call_data k) (call_now1 k) (call_now2 k)
                     = entry_of lg0 k).
    { unfold entry_of, logEntry. rewrite Hid, Hstart. reflexivity. }
    unfold log_call. rewrite (log_buffer _ _ _ _ _ _ _ Hle), Hentry.
    destruct (length (sessionLogs (log_calls ks lg0)) <? 1000)%nat eqn:Hlt.
    + apply Nat.ltb_lt in Hlt. rewrite length_app. cbn [length].
      split; [apply suffix_app; exact Hsuf |].
      split; [lia |]. split; [lia |].
      destruct (length ks + 1 <=? 1000)%nat eqn:Hall; [| exact I].
      apply Nat.leb_le in Hall.
      replace (length ks <=? 1000)%nat with true in Hfull
        by (symmetry; apply Nat.leb_le; lia).
      rewrite Hfull. reflexivity.
    + apply Nat.ltb_ge in Hlt. rewrite length_app, length_drop. cbn [length].
      split.
      { apply suffix_app. etrans; [apply suffix_drop | exact Hsuf]. }
      split; [lia |]. split; [lia |].
      destruct (length ks + 1 <=? 1000)%nat eqn:Hall; [| exact I].
      apply Nat.leb_le in Hall.
      replace (length ks <=? 1000)%nat with true in Hfull
        by (symmetry; apply Nat.leb_le; lia).
      rewrite Hfull, length_map in Hlt. lia.
Qed.

(** *** Counting by category *)

Lemma count_fold (cat : string) (l : list LogEntry) :
  forall acc : gmap string Tally,
    fold_left
      (fun categories entry =>
         write_category categories (category entry)
           (or_zero_plus_one (read_category categories (category entry))))
      l acc !! cat
    = (if String.eqb cat "__proto__" then acc !! cat
       else Nat.iter (count_category cat l) (bump cat) (acc !! cat)).
Proof.
  induction l as [| e l IH]; intros acc.
  - cbn. destruct (String.eqb cat "__proto__"); reflexivity.
  - cbn [fold_left]. rewrite IH. unfold count_category. cbn [List.filter].
    unfold write_category, read_category.
    destruct (String.eqb cat "__proto__") eqn:Hproto.
    + apply String.eqb_eq in Hproto. subst cat.
      destruct (String.eqb (category e) "__proto__") eqn:He; [reflexivity |].
      apply String.eqb_neq in He. rewrite lookup_insert_ne by exact He.
      reflexivity.
    + destruct (String.eqb (category e) cat) eqn:Heq.
      * apply String.eqb_eq in Heq. subst cat. rewrite Hproto.
        rewrite lookup_insert_eq. cbn [length].
        rewrite Nat.iter_succ_r. reflexivity.
      * apply String.eqb_neq in Heq.
        destruct (String.eqb (category e) "__proto__"); [reflexivity |].
        rewrite lookup_insert_ne by exact Heq. reflexivity.
Qed.

Lemma bump_from_nothing (cat : string) (n : nat) :
  Nat.iter (S n) (bump cat) None
  = Some (if inherited cat then Text cat (S n) else Number (S n)).
Proof.
  induction n as [| n IH].
  - unfold Nat.iter. cbn [nat_rect]. unfold bump.
    destruct (inherited cat); reflexivity.
  - rewrite Nat.iter_succ, IH. unfold bump.
    destruct (inherited cat); cbn [or_zero_plus_one]; f_equal; f_equal; lia.
Qed.

(** X23. [getLogsByCategory] counts the buffer by category for every
    name the object does not inherit from [Object.prototype]: a category
    with entries is mapped to their number, a category without entries
    is absent.  Under an inherited name such as constructor it holds no
    count but the text of the inherited member followed by one character
    1 per entry, and under [__proto__] it holds nothing. *)
Theorem logs_by_category_counts_entries (lg : AudioPlayerLogger) (cat : string) :
  getLogsByCategory lg !! cat
  = (if (count_category cat (sessionLogs lg) =? 0)%nat then None
     else if String.eqb cat "__proto__" then None
     else if inherited cat then Some (Text cat (count_category cat (sessionLogs lg)))
     else Some (Number (count_category cat (sessionLogs lg)))).
Proof.
  unfold getLogsByCategory. rewrite count_fold, lookup_empty.
  destruct (count_category cat (sessionLogs lg)) as [| n] eqn:Hn.
  - cbn. destruct (String.eqb cat "__proto__"); reflexivity.
  - cbn [Nat.eqb]. destruct (String.eqb cat "__proto__"); [reflexivity |].
    rewrite bump_from_nothing. destruct (inherited cat); reflexivity.
Qed.

(** *** Errors in the summary *)

Lemma slice_last_length {A} (n : nat) (l : list A) :
  length (slice_last n l) = Nat.min n (length l).
Proof. unfold slice_last. rewrite length_drop. lia. Qed.

(** X25. After [trackError] the summary counts one more error and shows
    it as the most recent one, with every missing or empty field of the
    error replaced by its fallback text; the summary never shows more
    than the last five errors. *)
Theorem tracked_error_is_latest_in_summary
    (lg : AudioPlayerLogger) (name message stack : option string)
    (ctx : string) (now1 now2 now : Z) :
  errorCount (getSessionSummary now (trackError name message stack ctx now1 now2 lg))
  = S (errorCount (getSessionSummary now lg))
  /\ last (recentErrors
             (getSessionSummary now (trackError name message stack ctx now1 now2 lg)))
     = Some (TrackedError
               {| error_timestamp := now1;
                  error_name := or_text name "Unknown";
                  error_message := or_text message "No message";
                  error_stack := or_text stack "No stack trace";
                  context := ctx;
                  error_sessionTime := now2 - sessionStartTime lg |})
  /\ length (recentErrors
               (getSessionSummary now (trackError name message stack ctx now1 now2 lg)))
     = Nat.min 5 (S (errorCount (getSessionSummary now lg)))
  /\ recentErrors
       (getSessionSummary now (trackError name message stack ctx now1 now2 lg))
     `suffix_of`
     errors (performanceMetrics (trackError name message stack ctx now1 now2 lg))
  /\ sessionLogs (trackError name message stack ctx now1 now2 lg) = sessionLogs lg.
Proof.
  unfold getSessionSummary, trackError, with_metrics.
  cbn [errorCount recentErrors errors performanceMetrics sessionLogs
       sessionStartTime].
  set (e := TrackedError _).
  split; [rewrite length_app; cbn [length]; lia |].
  split.
  { unfold slice_last. rewrite length_app. cbn [length].
    rewrite drop_app_le by lia. apply last_snoc. }
  split; [rewrite slice_last_length, length_app; cbn [length]; lia |].
  split; [apply suffix_drop | reflexivity].
Qed.

End SessionLoggerProofs.

(** * Properties of the chapter list and of the demo log *)

Module ChapterPlayerProofs.

Import ChapterPlayer.
Local Open Scope js_scope.

Ltac unfold_chapter :=
  unfold handleProgressUpdate, loadAllChapterProgress, setChapterProgress,
    setLoadingProgress, exec, completion, try_finally, try_catch, bind, ret,
    throw, get, modify in *.

(** X26. A progress update from the player writes position, status and
    speed into the entry of the selected chapter and keeps that entry's
    completion fields, so the chapter's completed mark does not change;
    every other chapter's entry is untouched, and the parent's callback,
    when there is one, is called once with the same values. *)
Theorem chapter_update_writes_only_the_selected_chapter
    (s : State) (ch : Chapter) (parent : bool) (pos : Q) (stat : string) (rate : Q) :
  selectedChapter s = Some ch ->
  chapterProgress (exec (handleProgressUpdate parent pos stat rate) s)
    !! chapter_id ch
  = Some {| position := JNum pos; status := Some stat; playback_speed := JNum rate;
            completion_percentage :=
              field completion_percentage (chapterProgress s !! chapter_id ch);
            is_finished := field is_finished (chapterProgress s !! chapter_id ch) |}
  /\ (forall k, k <> chapter_id ch ->
        chapterProgress (exec (handleProgressUpdate parent pos stat rate) s) !! k
        = chapterProgress s !! k)
  /\ isChapterCompleted (exec (handleProgressUpdate parent pos stat rate) s)
       (chapter_id ch)
     = isChapterCompleted s (chapter_id ch)
  /\ parentCalls (exec (handleProgressUpdate parent pos stat rate) s)
     = (parentCalls s ++ (if parent then [(pos, stat, rate, Some ch)] else []))%list
  /\ selectedChapter (exec (handleProgressUpdate parent pos stat rate) s) = Some ch.
Proof.
  intros Hsel.
  assert (Hmap : chapterProgress (exec (handleProgressUpdate parent pos stat rate) s)
                 = <[chapter_id ch :=
                       {| position := JNum pos; status := Some stat;
                          playback_speed := JNum rate;
                          completion_percentage :=
                            field completion_percentage
                              (chapterProgress s !! chapter_id ch);
                          is_finished :=
                            field is_finished (chapterProgress s !! chapter_id ch) |}]>
                     (chapterProgress s)).
  { unfold_chapter. rewrite Hsel. cbn.
    destruct parent; cbn; destruct (chapterProgress s !! chapter_id ch); reflexivity. }
  split; [rewrite Hmap; apply lookup_insert_eq |].
  split; [intros k Hk; rewrite Hmap; apply lookup_insert_ne; congruence |].
  split.
  { unfold isChapterCompleted. rewrite Hmap, lookup_insert_eq. reflexivity. }
  unfold_chapter. rewrite Hsel. cbn.
  destruct parent; cbn; rewrite ?app_nil_r; rewrite ?Hsel; split; reflexivity.
Qed.

Lemma chapter_update_writes_only_the_selected_chapter_witness :
  isChapterCompleted
    (exec (handleProgressUpdate false 30 "playing" 1)
       {| selectedChapter := Some {| chapter_id := 4; title := "Resolution" |};
          isChapterListOpen := false;
          chapterProgress :=
            {[ 4%Z := {| position := JNum 900; status := None;
                         playback_speed := JNum 1;
                         completion_percentage := JNum 100;
                         is_finished := JBool true |} ]};
          loadingProgress := false; parentCalls := [] |}) 4
  = true.
Proof.
  destruct (chapter_update_writes_only_the_selected_chapter
              {| selectedChapter := Some {| chapter_id := 4; title := "Resolution" |};
                 isChapterListOpen := false;
                 chapterProgress :=
                   {[ 4%Z := {| position := JNum 900; status := None;
                                playback_speed := JNum 1;
                                completion_percentage := JNum 100;
                                is_finished := JBool true |} ]};
                 loadingProgress := false; parentCalls := [] |}
              {| chapter_id := 4; title := "Resolution" |}
              false 30 "playing" 1 eq_refl)
    as (_ & _ & Hdone & _).
  etransitivity; [exact Hdone | vm_compute; reflexivity].
Defined.

(** X27. Loading the chapter progress replaces the whole map: whatever
    the network does, afterwards only chapter 4 can have an entry (the
    progress kept for any other chapter is gone) and loading is over. *)
Theorem loading_chapter_progress_keeps_only_chapter_4
    (s : State) (net : FetchOutcome (option ChapterProgress)) :
  completion (loadAllChapterProgress net) s = Normal tt
  /\ loadingProgress (exec (loadAllChapterProgress net) s) = false
  /\ (forall k, k <> 4%Z ->
        chapterProgress (exec (loadAllChapterProgress net) s) !! k = None)
  /\ chapterProgress (exec (loadAllChapterProgress net) s) !! 4%Z
     = match net with
       | NetworkError _ => Some emptyProgress
       | Responded r =>
           if ok r then
             match body r with
             | Normal progress => Some (default emptyProgress progress)
             | Throw _ => Some emptyProgress
             end
           else None
       end.
Proof.
  unfold_chapter.
  destruct net as [e | r]; cbn.
  - repeat split. intros k Hk. apply lookup_singleton_ne. congruence.
  - destruct (ok r); cbn.
    + destruct (body r) as [progress | e]; cbn; repeat split;
        intros k Hk; apply lookup_singleton_ne; congruence.
    + repeat split.
Qed.

(** X28. For a record whose position and completion percentage are
    numbers, the chapter list and the player agree: the row of the
    chapter shows its Resume badge exactly when a player that is not
    playing shows its Resume button after fetching that record. *)
Theorem chapter_resume_badge_agrees_with_player
    (s : State) (id : Z) (p q : Q) (fin : JsVal) (st_ : option string)
    (speed : JsVal) (c : AudioPlayer.Player) (code : Z) :
  chapterProgress s !! id
  = Some {| position := JNum p; status := st_; playback_speed := speed;
            completion_percentage := JNum q; is_finished := fin |} ->
  truthy_opt_string (AudioPlayer.authToken (AudioPlayer.props c)) = true ->
  (200 <= code <= 299)%Z ->
  AudioPlayer.isPlaying (AudioPlayer.st c) = false ->
  showsResumeBadge s id
  = AudioPlayer.renders_Resume
      (exec (AudioPlayer.checkResume
               (Statements.respond code
                  (Some {| AudioPlayer.position := JNum p;
                           AudioPlayer.completion_percentage := JNum q;
                           AudioPlayer.is_finished := fin;
                           AudioPlayer.playback_speed := speed |})))
         c).
Proof.
  intros Hentry Htok Hcode Hidle.
  unfold exec. rewrite (PlayerProofs.checkResume_record c code _ Htok Hcode).
  unfold showsResumeBadge, hasChapterProgress, isChapterCompleted,
    AudioPlayer.renders_Resume, Statements.finished, Statements.resumable,
    Statements.position_number.
  rewrite Hentry.
  cbn [snd field position completion_percentage is_finished to_number parseFloat
       num_lt num_or_zero AudioPlayer.st AudioPlayer.with_st
       AudioPlayer.with_browser AudioPlayer.position
       AudioPlayer.completion_percentage AudioPlayer.is_finished].
  destruct (Qlt_bool 0 p) eqn:Hp; destruct (Qlt_bool q 100) eqn:Hq;
    cbn [andb AudioPlayer.put_showStartOver AudioPlayer.put_resumePosition
         AudioPlayer.put_resumeAvailable AudioPlayer.put_completionPercentage
         AudioPlayer.isPlaying AudioPlayer.resumeAvailable
         AudioPlayer.showStartOver AudioPlayer.completionPercentage];
    rewrite Hidle; cbn [negb andb]; try rewrite andb_false_r; try reflexivity.
  assert (Hnot100 : Qeq_bool q 100 = false).
  { destruct (Qeq_bool q 100) eqn:E; [| reflexivity].
    apply Qeq_bool_iff in E. unfold Qlt_bool in Hq. apply negb_true_iff in Hq.
    assert (Hle : Qle_bool 100 q = true) by (apply Qle_bool_iff; rewrite E; apply Qle_refl).
    congruence. }
  assert (Hpct : Qlt_bool (if Qeq_bool q 0 then 0%Q else q) 100 = true)
    by (destruct (Qeq_bool q 0); [reflexivity | exact Hq]).
  rewrite Hnot100, Hpct, orb_false_r.
  destruct fin as [| | [] | n]; cbn; rewrite ?orb_false_r; reflexivity.
Qed.

Lemma chapter_resume_badge_agrees_with_player_witness :
  showsResumeBadge
    {| selectedChapter := None; isChapterListOpen := true;
       chapterProgress :=
         {[ 4%Z := {| position := JNum 120; status := None; playback_speed := JNum 1;
                      completion_percentage := JNum 25;
                      is_finished := JBool false |} ]};
       loadingProgress := false; parentCalls := [] |} 4
  = true.
Proof.
  assert (Hcode : (200 <= 200 <= 299)%Z) by lia.
  assert (Hentry :
            chapterProgress
              {| selectedChapter := None; isChapterListOpen := true;
                 chapterProgress :=
                   {[ 4%Z := {| position := JNum 120; status := None;
                                playback_speed := JNum 1;
                                completion_percentage := JNum 25;
                                is_finished := JBool false |} ]};
                 loadingProgress := false; parentCalls := [] |} !! 4%Z
            = Some {| position := JNum 120; status := None; playback_speed := JNum 1;
                      completion_percentage := JNum 25;
                      is_finished := JBool false |})
    by (vm_compute; reflexivity).
  etransitivity;
    [exact (chapter_resume_badge_agrees_with_player _ 4 120 25 (JBool false) None
              (JNum 1) Statements.loaded100 200 Hentry eq_refl Hcode eq_refl)
    | vm_compute; reflexivity].
Defined.

End ChapterPlayerProofs.

Module DemoProofs.

Import Demo.
Local Open Scope list_scope.

Lemma updates_snoc us u l :
  updates (us ++ [u]) l
  = handleProgressUpdate (at_clock u) (at_position u) (at_status u) (at_rate u)
      (updates us l).
Proof. unfold updates. rewrite fold_left_app. reflexivity. Qed.

(** X29. Over any run of progress updates the demo page's log is the
    last ten updates, newest first, each with its position floored. *)
Theorem demo_log_is_last_ten_newest_first (us : list Update) :
  updates us [] = take 10 (rev (map entry_of us))
  /\ length (updates us []) = Nat.min (length us) 10.
Proof.
  assert (Hlog : updates us [] = take 10 (rev (map entry_of us))).
  { induction us as [| u us IH] using rev_ind; [reflexivity |].
    rewrite updates_snoc, IH, map_app, rev_app_distr. cbn [map rev app].
    unfold handleProgressUpdate. fold (entry_of u).
    rewrite take_take. reflexivity. }
  split; [exact Hlog |].
  rewrite Hlog, length_take, length_rev, length_map. lia.
Qed.

End DemoProofs.
